(** * Blogly: users, posts and tags behind server-rendered forms

    A shallow embedding of [models.py] and of the route handlers of
    [part-three/app.py].  The relational store is a record of finite maps
    (one per table, keyed by the primary key) and a finite set of pairs for
    the join table [posts_tags].  A view function is a computation in a
    small monad that reads the request, works on the session's pending
    copy of the store, may raise, and publishes its work with [commit].
    What the session sends can be refused on the way: by the driver, which
    takes no text with a NUL character, and by the database, which keeps
    primary keys and tag names unique. *)

From Stdlib Require Import ZArith Ascii String.
From stdpp Require Import base option list gmap sets strings sorting pretty.

Local Open Scope string_scope.
Local Open Scope Z_scope.

(** ** models.py *)

Definition DEFAULT_IMAGE_URL : string :=
  "https://www.freeiconspng.com/uploads/icon-user-blue-symbol-people-person-generic--public-domain--21.png".

(** A row of [users]; the primary key [id] is the key of the table. *)
Module User.
Record row := mk {
  first_name : string;
  last_name : string;
  image_url : string
}.

Definition full_name (self : row) : string :=
  first_name self +:+ " " +:+ last_name self.

(** The text columns, in the order of the table. *)
Definition text (self : row) : list string :=
  [first_name self; last_name self; image_url self].

#[global] Instance row_eq_dec : EqDecision row.
Proof. solve_decision. Defined.
End User.

(** A row of [posts].  [created_at] is a [datetime], kept as the number of
    microseconds it denotes. *)
Module Post.
Record row := mk {
  title : string;
  content : string;
  created_at : Z;
  user_id : Z
}.

Definition text (self : row) : list string := [title self; content self].

#[global] Instance row_eq_dec : EqDecision row.
Proof. solve_decision. Defined.
End Post.

(** A row of [tags]. *)
Module Tag.
Record row := mk {
  name : string
}.

Definition text (self : row) : list string := [name self].

#[global] Instance row_eq_dec : EqDecision row.
Proof. solve_decision. Defined.
End Tag.

(** The database: the four tables and the three serial sequences behind the
    integer primary keys.  A sequence field holds the next value it hands
    out.  [posts_tags] has the pair (post_id, tag_id) as its primary key,
    so it is a set of pairs. *)
Record Store := mkStore {
  users : gmap Z User.row;
  posts : gmap Z Post.row;
  tags : gmap Z Tag.row;
  posts_tags : gset (Z * Z);
  users_id_seq : Z;
  posts_id_seq : Z;
  tags_id_seq : Z
}.

(** What [db.create_all()] leaves on an empty database. *)
Definition create_all : Store :=
  {| users := ∅; posts := ∅; tags := ∅; posts_tags := ∅;
     users_id_seq := 1; posts_id_seq := 1; tags_id_seq := 1 |}.

(** [post.tags] and [tag.posts]: the two sides of the relationship through
    [posts_tags], as sets of identifiers. *)
Definition tags_of (s : Store) (post_id : Z) : gset Z :=
  set_map snd (filter (λ pt, pt.1 = post_id) (posts_tags s)).

Definition posts_of (s : Store) (tag_id : Z) : gset Z :=
  set_map fst (filter (λ pt, pt.2 = tag_id) (posts_tags s)).

(** [user.posts]: the posts whose [user_id] is the user's id. *)
Definition posts_by (s : Store) (uid : Z) : gmap Z Post.row :=
  filter (λ kv, Post.user_id kv.2 = uid) (posts s).

(** The [unique=True] constraint on [Tag.name]: no two rows of [tags]
    carry the same name. *)
Definition unique_names (t : gmap Z Tag.row) : Prop :=
  ∀ i j ti tj,
    t !! i = Some ti → t !! j = Some tj → Tag.name ti = Tag.name tj → i = j.

(** ** The request, the session and the view monad *)

(** [request.form] is a multi-dict: an association list with repeated keys.
    [now] is the reading of [datetime.datetime.now] for this request. *)
Record Request := mkRequest {
  form : list (string * string);
  now : Z
}.

Inductive Error :=
| NotFound                          (* raised by get_or_404 *)
| BadRequestKeyError (key : string) (* request.form[key], key absent *)
| ValueError (detail : string)      (* int(literal): the literal; the
                                       driver on a text it cannot send:
                                       its message *)
| IntegrityError.                   (* a constraint refused the flush *)

Inductive Outcome (A : Type) :=
| Return (a : A)
| Raise (e : Error).
Arguments Return {A} a.
Arguments Raise {A} e.

(** The state a view runs in.  [database] is what is committed; [pending]
    is the view [db.session] has of it, with the changes of the current
    transaction; [dirty] are the ids of the [tags] rows added or changed
    since the last flush; [flashes] are the messages given to [flash]. *)
Record Session := mkSession {
  database : Store;
  pending : Store;
  dirty : gset Z;
  flashes : list string
}.

Definition View (A : Type) : Type := Request → Session → Session * Outcome A.

#[global] Instance View_ret : MRet View := λ A a _ sess, (sess, Return a).

#[global] Instance View_bind : MBind View := λ A B f m req sess,
  match m req sess with
  | (sess', Return a) => f a req sess'
  | (sess', Raise e) => (sess', Raise e)
  end.

Definition raise {A} (e : Error) : View A := λ _ sess, (sess, Raise e).

Definition get_pending : View Store := λ _ sess, (sess, Return (pending sess)).

Definition modify_pending (f : Store → Store) : View unit := λ _ sess,
  ({| database := database sess; pending := f (pending sess);
      dirty := dirty sess; flashes := flashes sess |}, Return ()).

Definition mark_dirty (tag_id : Z) : View unit := λ _ sess,
  ({| database := database sess; pending := pending sess;
      dirty := {[tag_id]} ∪ dirty sess; flashes := flashes sess |}, Return ()).

Definition flash (message : string) : View unit := λ _ sess,
  ({| database := database sess; pending := pending sess;
      dirty := dirty sess; flashes := flashes sess ++ [message] |}, Return ()).

(** [request.form[key]]: the first value under [key]. *)
Fixpoint form_lookup (key : string) (f : list (string * string)) : option string :=
  match f with
  | [] => None
  | (k, v) :: f' => if decide (k = key) then Some v else form_lookup key f'
  end.

(** [request.form.getlist(key)]: every value under [key], in order. *)
Fixpoint getlist (key : string) (f : list (string * string)) : list string :=
  match f with
  | [] => []
  | (k, v) :: f' => if decide (k = key) then v :: getlist key f' else getlist key f'
  end.

Definition request_form (key : string) : View string := λ req sess,
  match form_lookup key (form req) with
  | Some v => (sess, Return v)
  | None => (sess, Raise (BadRequestKeyError key))
  end.

Definition request_form_getlist (key : string) : View (list string) :=
  λ req sess, (sess, Return (getlist key (form req))).

Definition datetime_now : View Z := λ req sess, (sess, Return (now req)).

(** ** The session: queries, writes, flush and commit *)

(** A row [i] of [tags] clashes when another row carries its name: the
    check the unique index makes for a row it is given. *)
Definition clashes (t : gmap Z Tag.row) (i : Z) : Prop :=
  match t !! i with
  | Some r => Tag.name r ∈ Tag.name <$> (map_to_list (delete i t)).*2
  | None => False
  end.

#[global] Instance clashes_dec t i : Decision (clashes t i).
Proof. unfold clashes. destruct (t !! i); apply _. Defined.

(** The driver (psycopg2) turns every text parameter of a statement into a
    literal before it sends the statement, and raises [ValueError] on a text
    that holds a NUL character: PostgreSQL has no such text. *)
Fixpoint has_nul (text : string) : bool :=
  match text with
  | EmptyString => false
  | String c rest => Ascii.eqb c "000"%char || has_nul rest
  end.

Definition nul_refused : string :=
  "A string literal cannot contain NUL (0x00) characters.".

Definition adapt (params : list string) : View unit :=
  if existsb has_nul params then raise (ValueError nul_refused) else mret ().

(** The UPDATE of a row carries the columns whose value is no longer the
    one that was loaded: of the columns [new], those that differ from
    [old]. *)
Fixpoint sent (old new : list string) : list string :=
  match old, new with
  | a :: old', b :: new' =>
      if decide (a = b) then sent old' new' else b :: sent old' new'
  | _, _ => []
  end.

(** The text the pending UPDATEs of a table carry: for every row of the
    transaction that the database holds too, the columns that changed.
    (The text of a new row goes with its INSERT, see [add_user].) *)
Definition table_text {R} (text : R → list string) (old new : gmap Z R)
  : list string :=
  map_to_list new ≫= λ ir,
    match old !! ir.1 with
    | Some r0 => sent (text r0) (text ir.2)
    | None => []
    end.

Definition update_text (db work : Store) : list string :=
  table_text User.text (users db) (users work)
  ++ table_text Post.text (posts db) (posts work)
  ++ table_text Tag.text (tags db) (tags work).

(** The driver raises on one of the UPDATEs of the transaction. *)
Definition refused (db work : Store) : bool :=
  existsb has_nul (update_text db work).

(** The flush sends the rows changed to the database.  The driver raises
    on a text with a NUL character, and nothing is sent; the database
    refuses a row that breaks the unique index of [tags.name].  The changes
    are read off against the committed rows, so a second flush of a
    transaction meets again the text the first one let through. *)
Definition flush : View unit := λ _ sess,
  if refused (database sess) (pending sess)
  then (sess, Raise (ValueError nul_refused))
  else if decide (set_Exists (clashes (tags (pending sess))) (dirty sess))
  then (sess, Raise IntegrityError)
  else ({| database := database sess; pending := pending sess;
           dirty := ∅; flashes := flashes sess |}, Return ()).

(** [db.session.commit()]: flush, then publish the transaction. *)
Definition publish : View unit := λ _ sess,
  ({| database := pending sess; pending := pending sess;
      dirty := dirty sess; flashes := flashes sess |}, Return ()).

Definition commit : View unit :=
  flush;;
  publish.

(** [Model.query.get_or_404(id)]. *)
Definition get_or_404 {R} (table : Store → gmap Z R) (id : Z) : View R :=
  s ← get_pending;
  match table s !! id with
  | Some r => mret r
  | None => raise NotFound
  end.

(** [Model.query.all()] and [Model.query.filter(Model.id.in_(ids)).all()]:
    the session flushes before it queries (autoflush).  The entities come
    with their ids, each once, in the order of the table. *)
Definition query_all {R} (table : Store → gmap Z R) : View (list (Z * R)) :=
  flush;;
  s ← get_pending;
  mret (map_to_list (table s)).

Definition query_id_in {R} (table : Store → gmap Z R) (ids : list Z)
  : View (list (Z * R)) :=
  flush;;
  s ← get_pending;
  mret (map_to_list (filter (λ kv, kv.1 ∈ ids) (table s))).

(** Setters of the store's fields. *)
Definition set_users (f : gmap Z User.row → gmap Z User.row) (s : Store) : Store :=
  {| users := f (users s); posts := posts s; tags := tags s;
     posts_tags := posts_tags s; users_id_seq := users_id_seq s;
     posts_id_seq := posts_id_seq s; tags_id_seq := tags_id_seq s |}.

Definition set_posts (f : gmap Z Post.row → gmap Z Post.row) (s : Store) : Store :=
  {| users := users s; posts := f (posts s); tags := tags s;
     posts_tags := posts_tags s; users_id_seq := users_id_seq s;
     posts_id_seq := posts_id_seq s; tags_id_seq := tags_id_seq s |}.

Definition set_tags (f : gmap Z Tag.row → gmap Z Tag.row) (s : Store) : Store :=
  {| users := users s; posts := posts s; tags := f (tags s);
     posts_tags := posts_tags s; users_id_seq := users_id_seq s;
     posts_id_seq := posts_id_seq s; tags_id_seq := tags_id_seq s |}.

Definition set_posts_tags (f : gset (Z * Z) → gset (Z * Z)) (s : Store) : Store :=
  {| users := users s; posts := posts s; tags := tags s;
     posts_tags := f (posts_tags s); users_id_seq := users_id_seq s;
     posts_id_seq := posts_id_seq s; tags_id_seq := tags_id_seq s |}.

Definition set_users_id_seq (n : Z) (s : Store) : Store :=
  {| users := users s; posts := posts s; tags := tags s;
     posts_tags := posts_tags s; users_id_seq := n;
     posts_id_seq := posts_id_seq s; tags_id_seq := tags_id_seq s |}.

Definition set_posts_id_seq (n : Z) (s : Store) : Store :=
  {| users := users s; posts := posts s; tags := tags s;
     posts_tags := posts_tags s; users_id_seq := users_id_seq s;
     posts_id_seq := n; tags_id_seq := tags_id_seq s |}.

Definition set_tags_id_seq (n : Z) (s : Store) : Store :=
  {| users := users s; posts := posts s; tags := tags s;
     posts_tags := posts_tags s; users_id_seq := users_id_seq s;
     posts_id_seq := posts_id_seq s; tags_id_seq := n |}.

(** Inserting a row under a primary key already in use is refused. *)
Definition insert_row {R} (table : Store → gmap Z R)
    (set_table : (gmap Z R → gmap Z R) → Store → Store) (id : Z) (r : R)
  : View unit :=
  s ← get_pending;
  match table s !! id with
  | Some _ => raise IntegrityError
  | None => modify_pending (set_table (λ t, <[id := r]> t))
  end.

(** [post.tags = tags]: the join rows of the post become those of [tags]. *)
Definition assign_tags (post_id : Z) (new_tags : list (Z * Tag.row)) : View unit :=
  modify_pending (set_posts_tags (λ pts,
    filter (λ pt, pt.1 ≠ post_id) pts ∪ list_to_set ((λ t, (post_id, t.1)) <$> new_tags))).

(** [tag.posts = posts]: the join rows of the tag become those of [posts]. *)
Definition assign_posts (tag_id : Z) (new_posts : list (Z * Post.row)) : View unit :=
  modify_pending (set_posts_tags (λ pts,
    filter (λ pt, pt.2 ≠ tag_id) pts ∪ list_to_set ((λ p, (p.1, tag_id)) <$> new_posts))).

(** [User(first_name=..., last_name=..., image_url=...)] and
    [db.session.add]: a missing [image_url] takes the column's default.
    The INSERT of the row is taken where the row is added (no statement of
    a view lies between [db.session.add] and the commit that sends it): the
    driver adapts the text of the row, and raises before anything is sent;
    then the id is drawn from the sequence, and the primary key checked. *)
Definition add_user (first_name last_name : string) (image_url : option string)
  : View (Z * User.row) :=
  s ← get_pending;
  let id := users_id_seq s in
  let new_user := User.mk first_name last_name (default DEFAULT_IMAGE_URL image_url) in
  adapt (User.text new_user);;
  modify_pending (set_users_id_seq (id + 1));;
  insert_row users set_users id new_user;;
  mret (id, new_user).

(** [Post(title=..., content=..., user=user, tags=tags)] and
    [db.session.add]: [created_at] takes its default, the time of the
    insert. *)
Definition add_post (title content : string) (user : Z * User.row)
    (new_tags : list (Z * Tag.row)) : View (Z * Post.row) :=
  s ← get_pending;
  created_at ← datetime_now;
  let id := posts_id_seq s in
  let new_post := Post.mk title content created_at user.1 in
  adapt (Post.text new_post);;
  modify_pending (set_posts_id_seq (id + 1));;
  insert_row posts set_posts id new_post;;
  assign_tags id new_tags;;
  mret (id, new_post).

(** [Tag(name=..., posts=posts)] and [db.session.add]. *)
Definition add_tag (name : string) (new_posts : list (Z * Post.row))
  : View (Z * Tag.row) :=
  s ← get_pending;
  let id := tags_id_seq s in
  let new_tag := Tag.mk name in
  adapt (Tag.text new_tag);;
  modify_pending (set_tags_id_seq (id + 1));;
  insert_row tags set_tags id new_tag;;
  mark_dirty id;;
  assign_posts id new_posts;;
  mret (id, new_tag).

(** [db.session.delete(post)]: the post and its rows in [posts_tags]. *)
Definition delete_post (id : Z) : View unit :=
  modify_pending (λ s,
    set_posts (λ t, delete id t)
      (set_posts_tags (λ pts, filter (λ pt, pt.1 ≠ id) pts) s)).

(** [db.session.delete(tag)]: the tag and its rows in [posts_tags]; the
    relationship [Tag.posts] has no cascade, the posts stay. *)
Definition delete_tag (id : Z) : View unit :=
  modify_pending (λ s,
    set_tags (λ t, delete id t)
      (set_posts_tags (λ pts, filter (λ pt, pt.2 ≠ id) pts) s)).

(** [db.session.delete(user)]: [User.posts] has
    [cascade="all, delete-orphan"], so every post of the user is deleted as
    by [delete_post], then the user. *)
Definition delete_user (id : Z) : View unit :=
  modify_pending (λ s,
    let owned := dom (posts_by s id) in
    set_users (λ t, delete id t)
      (set_posts (λ t, filter (λ kv, kv.1 ∉ owned) t)
        (set_posts_tags (λ pts, filter (λ pt, pt.1 ∉ owned) pts) s))).

(** Assigning to the columns of a loaded entity; the UPDATE goes with the
    next flush. *)
Definition setattr_user (id : Z) (f : User.row → User.row) : View unit :=
  modify_pending (set_users (alter f id)).

Definition setattr_post (id : Z) (f : Post.row → Post.row) : View unit :=
  modify_pending (set_posts (alter f id)).

Definition setattr_tag (id : Z) (f : Tag.row → Tag.row) : View unit :=
  modify_pending (set_tags (alter f id));;
  mark_dirty id.

(** ** Responses *)

(** The values handed to a template. *)
Inductive Value :=
| a_user (u : Z * User.row)
| a_post (p : Z * Post.row)
| a_tag (t : Z * Tag.row)
| some_posts (ps : list (Z * Post.row))
| some_tags (ts : list (Z * Tag.row)).

Inductive Response :=
| Page (status : Z) (template : string) (context : list (string * Value))
| Redirect (location : string)
| ErrorPage (status : Z).

Definition status_code (r : Response) : Z :=
  match r with
  | Page status _ _ => status
  | Redirect _ => 302
  | ErrorPage status => status
  end.

Definition render_template (template : string) (context : list (string * Value))
  : View Response :=
  mret (Page 200 template context).

Definition redirect (location : string) : View Response :=
  mret (Redirect location).

(** [@app.errorhandler(404)]. *)
Definition page_not_found : Response := Page 404 "404.html" [].

(** What the framework answers to an exception that leaves a view: the
    handler above for a 404, a bad request for a missing form key, a server
    error for anything else. *)
Definition handle_exception (e : Error) : Response :=
  match e with
  | NotFound => page_not_found
  | BadRequestKeyError _ => ErrorPage 400
  | ValueError _ => ErrorPage 500
  | IntegrityError => ErrorPage 500
  end.

(** When the request ends the session is removed: what was not committed
    is rolled back.  Sequences are not transactional, the values drawn
    stay drawn. *)
Definition teardown (sess : Session) : Store :=
  let db := database sess in
  let work := pending sess in
  {| users := users db; posts := posts db; tags := tags db;
     posts_tags := posts_tags db; users_id_seq := users_id_seq work;
     posts_id_seq := posts_id_seq work; tags_id_seq := tags_id_seq work |}.

Record Served := mkServed {
  response : Response;
  flashed : list string;
  store : Store
}.

(** One request against the database [db]. *)
Definition serve (view : View Response) (req : Request) (db : Store) : Served :=
  let start := {| database := db; pending := db; dirty := ∅; flashes := [] |} in
  match view req start with
  | (sess, Return r) =>
      {| response := r; flashed := flashes sess; store := teardown sess |}
  | (sess, Raise e) =>
      {| response := handle_exception e; flashed := flashes sess;
         store := teardown sess |}
  end.

(** Two stores with the same rows in every table. *)
Definition same_rows (s s' : Store) : Prop :=
  users s' = users s ∧ posts s' = posts s ∧ tags s' = tags s
  ∧ posts_tags s' = posts_tags s.

(** ** part-three/app.py *)

(** Ordering of [Post.created_at.desc()]. *)
Definition later (p q : Z * Post.row) : Prop :=
  Post.created_at q.2 ≤ Post.created_at p.2.

#[global] Instance later_dec p q : Decision (later p q).
Proof. unfold later. apply _. Defined.

Definition order_by_created_at_desc (ps : list (Z * Post.row)) : list (Z * Post.row) :=
  merge_sort later ps.

Section App.

(** Python's [int] on a string: the number it denotes, or [None] where
    [int] raises [ValueError]. *)
Variable int : string → option Z.

Definition to_int (num : string) : View Z :=
  match int num with
  | Some n => mret n
  | None => raise (ValueError num)
  end.

Definition root : View Response :=
  all_posts ← query_all posts;
  let posts := take 5 (order_by_created_at_desc all_posts) in
  render_template "posts/homepage.html" [("posts", some_posts posts)].

(** *** User route *)

Definition users_new : View Response :=
  first_name ← request_form "first_name";
  last_name ← request_form "last_name";
  image_url ← request_form "image_url";
  new_user ← add_user first_name last_name
                (if decide (image_url = "") then None else Some image_url);
  commit;;
  flash ("User " +:+ User.full_name new_user.2 +:+ " added.");;
  redirect "/users".

Definition users_show (user_id : Z) : View Response :=
  user ← get_or_404 users user_id;
  render_template "users/show.html" [("user", a_user (user_id, user))].

Definition users_edit (user_id : Z) : View Response :=
  user ← get_or_404 users user_id;
  render_template "users/edit.html" [("user", a_user (user_id, user))].

Definition users_update (user_id : Z) : View Response :=
  user ← get_or_404 users user_id;
  first_name ← request_form "first_name";
  setattr_user user_id (λ u, User.mk first_name (User.last_name u) (User.image_url u));;
  last_name ← request_form "last_name";
  setattr_user user_id (λ u, User.mk (User.first_name u) last_name (User.image_url u));;
  image_url ← request_form "image_url";
  setattr_user user_id (λ u, User.mk (User.first_name u) (User.last_name u) image_url);;
  commit;;
  flash ("User " +:+ User.full_name (User.mk first_name last_name image_url)
         +:+ " edited.");;
  redirect "/users".

Definition users_destroy (user_id : Z) : View Response :=
  user ← get_or_404 users user_id;
  delete_user user_id;;
  commit;;
  flash ("User " +:+ User.full_name user +:+ " deleted.");;
  redirect "/users".

(** *** Posts route *)

Definition posts_new_form (user_id : Z) : View Response :=
  user ← get_or_404 users user_id;
  all_tags ← query_all tags;
  render_template "posts/new.html"
    [("user", a_user (user_id, user)); ("tags", some_tags all_tags)].

Definition posts_new (user_id : Z) : View Response :=
  user ← get_or_404 users user_id;
  nums ← request_form_getlist "tags";
  tag_ids ← mapM to_int nums;
  new_tags ← query_id_in tags tag_ids;
  title ← request_form "title";
  content ← request_form "content";
  new_post ← add_post title content (user_id, user) new_tags;
  commit;;
  flash ("Post '" +:+ Post.title new_post.2 +:+ "' added.");;
  redirect ("/users/" +:+ pretty user_id).

Definition posts_show (post_id : Z) : View Response :=
  post ← get_or_404 posts post_id;
  render_template "posts/show.html" [("post", a_post (post_id, post))].

Definition posts_edit (post_id : Z) : View Response :=
  post ← get_or_404 posts post_id;
  all_tags ← query_all tags;
  render_template "posts/edit.html"
    [("post", a_post (post_id, post)); ("tags", some_tags all_tags)].

Definition posts_update (post_id : Z) : View Response :=
  post ← get_or_404 posts post_id;
  title ← request_form "title";
  setattr_post post_id (λ p,
    Post.mk title (Post.content p) (Post.created_at p) (Post.user_id p));;
  content ← request_form "content";
  setattr_post post_id (λ p,
    Post.mk (Post.title p) content (Post.created_at p) (Post.user_id p));;
  nums ← request_form_getlist "tags";
  tag_ids ← mapM to_int nums;
  new_tags ← query_id_in tags tag_ids;
  assign_tags post_id new_tags;;
  commit;;
  flash ("Post '" +:+ title +:+ "' edited.");;
  redirect ("/users/" +:+ pretty (Post.user_id post)).

Definition posts_destroy (post_id : Z) : View Response :=
  post ← get_or_404 posts post_id;
  delete_post post_id;;
  commit;;
  flash ("Post '" +:+ Post.title post +:+ " deleted.");;
  redirect ("/users/" +:+ pretty (Post.user_id post)).

(** *** Tags route *)

Definition tags_new : View Response :=
  nums ← request_form_getlist "posts";
  post_ids ← mapM to_int nums;
  new_posts ← query_id_in posts post_ids;
  name ← request_form "name";
  new_tag ← add_tag name new_posts;
  commit;;
  flash ("Tag '" +:+ Tag.name new_tag.2 +:+ "' added.");;
  redirect "/tags".

Definition tags_show (tag_id : Z) : View Response :=
  tag ← get_or_404 tags tag_id;
  render_template "tags/show.html" [("tag", a_tag (tag_id, tag))].

Definition tags_edit_form (tag_id : Z) : View Response :=
  tag ← get_or_404 tags tag_id;
  all_posts ← query_all posts;
  render_template "tags/edit.html"
    [("tag", a_tag (tag_id, tag)); ("posts", some_posts all_posts)].

Definition tags_edit (tag_id : Z) : View Response :=
  tag ← get_or_404 tags tag_id;
  name ← request_form "name";
  setattr_tag tag_id (λ _, Tag.mk name);;
  nums ← request_form_getlist "posts";
  post_ids ← mapM to_int nums;
  new_posts ← query_id_in posts post_ids;
  assign_posts tag_id new_posts;;
  commit;;
  flash ("Tag '" +:+ name +:+ "' edited.");;
  redirect "/tags".

Definition tags_destroy (tag_id : Z) : View Response :=
  tag ← get_or_404 tags tag_id;
  delete_tag tag_id;;
  commit;;
  flash ("Tag '" +:+ Tag.name tag +:+ "' deleted.");;
  redirect "/tags".

End App.

(** The routes with a view above, and the view of each.  The views that
    only list a table or show an empty form ([users_index],
    [users_new_form], [tags_index], [tags_new_form]) take no id and write
    nothing; they are not among these routes, and come further down. *)
Inductive Endpoint :=
| GET_root
| POST_users_new
| GET_users_show (user_id : Z)
| GET_users_edit (user_id : Z)
| POST_users_update (user_id : Z)
| POST_users_destroy (user_id : Z)
| GET_posts_new_form (user_id : Z)
| POST_posts_new (user_id : Z)
| GET_posts_show (post_id : Z)
| GET_posts_edit (post_id : Z)
| POST_posts_update (post_id : Z)
| POST_posts_destroy (post_id : Z)
| POST_tags_new
| GET_tags_show (tag_id : Z)
| GET_tags_edit_form (tag_id : Z)
| POST_tags_edit (tag_id : Z)
| POST_tags_destroy (tag_id : Z).

Definition view_function (int : string → option Z) (e : Endpoint) : View Response :=
  match e with
  | GET_root => root
  | POST_users_new => users_new
  | GET_users_show user_id => users_show user_id
  | GET_users_edit user_id => users_edit user_id
  | POST_users_update user_id => users_update user_id
  | POST_users_destroy user_id => users_destroy user_id
  | GET_posts_new_form user_id => posts_new_form user_id
  | POST_posts_new user_id => posts_new int user_id
  | GET_posts_show post_id => posts_show post_id
  | GET_posts_edit post_id => posts_edit post_id
  | POST_posts_update post_id => posts_update int post_id
  | POST_posts_destroy post_id => posts_destroy post_id
  | POST_tags_new => tags_new int
  | GET_tags_show tag_id => tags_show tag_id
  | GET_tags_edit_form tag_id => tags_edit_form tag_id
  | POST_tags_edit tag_id => tags_edit int tag_id
  | POST_tags_destroy tag_id => tags_destroy tag_id
  end.

(** The entity an id-based route looks up is missing from the store. *)
Definition missing (e : Endpoint) (s : Store) : Prop :=
  match e with
  | GET_root | POST_users_new | POST_tags_new => False
  | GET_users_show id | GET_users_edit id | POST_users_update id
  | POST_users_destroy id | GET_posts_new_form id | POST_posts_new id =>
      users s !! id = None
  | GET_posts_show id | GET_posts_edit id | POST_posts_update id
  | POST_posts_destroy id =>
      posts s !! id = None
  | GET_tags_show id | GET_tags_edit_form id | POST_tags_edit id
  | POST_tags_destroy id =>
      tags s !! id = None
  end.

(** The stores the application can be in: what a sequence of requests
    makes of the store [db.create_all()] leaves. *)
Inductive reachable (int : string → option Z) : Store → Prop :=
| reachable_init : reachable int create_all
| reachable_step s e req :
    reachable int s →
    reachable int (store (serve (view_function int e) req s)).

(** A reading of [int] for decimal literals with an optional sign, used to
    run the views on concrete requests.  What it reads, [int] reads the
    same; [int] also takes blanks around the literal and underscores
    between digits. *)
Definition digit_value (c : Ascii.ascii) : option Z :=
  let n := Z.of_N (Ascii.N_of_ascii c) in
  if decide (48 ≤ n ≤ 57) then Some (n - 48) else None.

Fixpoint digits_value (acc : Z) (s : string) : option Z :=
  match s with
  | EmptyString => Some acc
  | String c s' =>
      match digit_value c with
      | Some d => digits_value (10 * acc + d) s'
      | None => None
      end
  end.

Definition decimal (s : string) : option Z :=
  match s with
  | EmptyString => None
  | String "-"%char (String _ _ as s') => Z.opp <$> digits_value 0 s'
  | String "+"%char (String _ _ as s') => digits_value 0 s'
  | String "-"%char EmptyString | String "+"%char EmptyString => None
  | _ => digits_value 0 s
  end.

(** A small store and a few requests to run the views on. *)
Definition demo : Store :=
  {| users := {[ 1 := User.mk "Ada" "Lovelace" "ada.png";
                 2 := User.mk "Alan" "Turing" "alan.png" ]};
     posts := {[ 1 := Post.mk "Notes" "On the engine" 100 1;
                 2 := Post.mk "Sketch" "Of the analyst" 200 1;
                 3 := Post.mk "Machines" "Can they think" 300 2 ]};
     tags := {[ 2 := Tag.mk "fun"; 5 := Tag.mk "math"; 7 := Tag.mk "logic" ]};
     posts_tags := {[ (1, 7); (2, 7); (3, 5); (1, 2) ]};
     users_id_seq := 3; posts_id_seq := 4; tags_id_seq := 8 |}.

Definition at_noon (f : list (string * string)) : Request :=
  {| form := f; now := 1200 |}.

(** The error a view ends with, if it raises. *)
Definition raised (view : View Response) (req : Request) (db : Store) : option Error :=
  match view req {| database := db; pending := db; dirty := ∅; flashes := [] |} with
  | (_, Return _) => None
  | (_, Raise e) => Some e
  end.

(** ** Invariants of a session *)

(** A view preserves [J] when every run from a session in [J] ends in a
    session in [J], whether it returns or raises. *)
Definition preserves {A} (J : Session → Prop) (view : View A) : Prop :=
  ∀ req sess, J sess → J (view req sess).1.

(** The committed tags have unique names, and two pending tags with one
    name are not both flushed. *)
Definition names_checked (sess : Session) : Prop :=
  unique_names (tags (database sess))
  ∧ ∀ i j ti tj,
      tags (pending sess) !! i = Some ti → tags (pending sess) !! j = Some tj →
      Tag.name ti = Tag.name tj → i ≠ j → i ∈ dirty sess ∨ j ∈ dirty sess.

(** Views that leave the committed store, the pending tags and the dirty
    set alone. *)
Definition tag_neutral {A} (view : View A) : Prop :=
  ∀ req sess,
    database (view req sess).1 = database sess
    ∧ tags (pending (view req sess).1) = tags (pending sess)
    ∧ dirty (view req sess).1 = dirty sess.

(** Every id in a table of [rows] is below the next value of the table's
    sequence in [seqs]. *)
Definition ahead (rows seqs : Store) : Prop :=
  (∀ i, is_Some (users rows !! i) → i < users_id_seq seqs)
  ∧ (∀ i, is_Some (posts rows !! i) → i < posts_id_seq seqs)
  ∧ (∀ i, is_Some (tags rows !! i) → i < tags_id_seq seqs).

Definition sequences_ahead (sess : Session) : Prop :=
  ahead (database sess) (pending sess) ∧ ahead (pending sess) (pending sess).

(** ** The views without an id, and further notions used below *)

Definition users_new_form : View Response :=
  render_template "users/new.html" [].

Definition tags_index : View Response :=
  all_tags ← query_all tags;
  render_template "tags/index.html" [("tags", some_tags all_tags)].

Definition tags_new_form : View Response :=
  all_posts ← query_all posts;
  render_template "tags/new.html" [("posts", some_posts all_posts)].

(** What [posts_update] does before its commit:
    the statements above [db.session.commit()]. *)
Definition posts_update_writes (int : string → option Z) (post_id : Z)
  : View (Post.row * string) :=
  post ← get_or_404 posts post_id;
  title ← request_form "title";
  setattr_post post_id (λ p,
    Post.mk title (Post.content p) (Post.created_at p) (Post.user_id p));;
  content ← request_form "content";
  setattr_post post_id (λ p,
    Post.mk (Post.title p) content (Post.created_at p) (Post.user_id p));;
  nums ← request_form_getlist "tags";
  tag_ids ← mapM (to_int int) nums;
  new_tags ← query_id_in tags tag_ids;
  assign_tags post_id new_tags;;
  mret (post, title).

(** The driver refuses the UPDATE that turns the columns [old] into
    [new]. *)
Definition refuses (old new : list string) : bool :=
  existsb has_nul (sent old new).

(** No row of [new] differs from the row of [old] under its key: the
    table has no UPDATE to send. *)
Definition unchanged {R} (old new : gmap Z R) : Prop :=
  ∀ i r r0, new !! i = Some r → old !! i = Some r0 → r = r0.

(** A text with a NUL character in it. *)
Definition with_nul (text : string) : string :=
  text +:+ String "000"%char "".

(** A response sent without a flash, over the store [s]. *)
Definition answer (r : Response) (s : Store) : Served :=
  {| response := r; flashed := []; store := s |}.

(** The foreign keys of [posts] and [posts_tags]: every post has its user,
    every join row its post and its tag. *)
Definition consistent (s : Store) : Prop :=
  (∀ p post, posts s !! p = Some post → is_Some (users s !! Post.user_id post))
  ∧ (∀ p t, (p, t) ∈ posts_tags s →
            is_Some (posts s !! p) ∧ is_Some (tags s !! t)).

(** The routes that only read. *)
Definition reads (e : Endpoint) : Prop :=
  match e with
  | GET_root | GET_users_show _ | GET_users_edit _ | GET_posts_new_form _
  | GET_posts_show _ | GET_posts_edit _ | GET_tags_show _
  | GET_tags_edit_form _ => True
  | _ => False
  end.

(** The names carried by the rows of [tags]. *)
Definition names (t : gmap Z Tag.row) : list string :=
  Tag.name <$> (map_to_list t).*2.

(** The form keys a view subscripts, in [request.form[key]]. *)
Definition fields (e : Endpoint) : list string :=
  match e with
  | POST_users_new | POST_users_update _ => ["first_name"; "last_name"; "image_url"]
  | POST_posts_new _ | POST_posts_update _ => ["title"; "content"]
  | POST_tags_new | POST_tags_edit _ => ["name"]
  | _ => []
  end.

(** The form key a view reads a list of ids from, with
    [request.form.getlist]. *)
Definition ids_field (e : Endpoint) : option string :=
  match e with
  | POST_posts_new _ | POST_posts_update _ => Some "tags"
  | POST_tags_new | POST_tags_edit _ => Some "posts"
  | _ => None
  end.

(** The routes that edit an entity in place. *)
Definition updates (e : Endpoint) : Prop :=
  match e with
  | POST_users_update _ | POST_posts_update _ | POST_tags_edit _ => True
  | _ => False
  end.

(** [users_index] orders the users with [ORDER BY last_name, first_name];
    how text compares is the database's collation, taken here as the
    relation [text_le].  The view hands the template its name and the
    keyword argument [users]. *)
Section Collation.

Variable text_le : relation string.
Context `{!RelDecision text_le}.

Definition by_name (u v : Z * User.row) : Prop :=
  text_le (User.last_name u.2) (User.last_name v.2)
  ∧ (text_le (User.last_name v.2) (User.last_name u.2) →
     text_le (User.first_name u.2) (User.first_name v.2)).

#[global] Instance by_name_dec : RelDecision by_name.
Proof. intros u v. unfold by_name. apply _. Defined.

Definition users_index : View (string * list (Z * User.row)) :=
  all_users ← query_all users;
  mret ("users/index.html", merge_sort by_name all_users).

End Collation.

(** The byte order of text (the collation [C]), to run [users_index]. *)
Fixpoint bytes_le (x y : string) : bool :=
  match x, y with
  | EmptyString, _ => true
  | String _ _, EmptyString => false
  | String a x', String b y' =>
      if (N_of_ascii a <? N_of_ascii b)%N then true
      else if (N_of_ascii a =? N_of_ascii b)%N then bytes_le x' y'
      else false
  end.

(** * Properties *)

(** ** Running a view *)

Lemma teardown_start s :
  teardown {| database := s; pending := s; dirty := ∅; flashes := [] |} = s.
Proof. by destruct s. Qed.

Lemma bind_run {A B} (m : View A) (f : A → View B) req sess :
  (m ≫= f) req sess
  = match m req sess with
    | (sess', Return a) => f a req sess'
    | (sess', Raise e) => (sess', Raise e)
    end.
Proof. reflexivity. Qed.

Lemma ret_run {A} (a : A) req sess :
  (mret a : View A) req sess = (sess, Return a).
Proof. reflexivity. Qed.

(** ** The text the driver is given *)

Lemma existsb_has_nul_true (l : list string) :
  existsb has_nul l = true ↔ ∃ t, t ∈ l ∧ has_nul t = true.
Proof.
  induction l as [|a l IH]; cbn [existsb].
  - split; [done|]. by intros (t & []%elem_of_nil & _).
  - rewrite orb_true_iff, IH. split.
    + intros [Ha|(t & Ht & Hnul)]; [exists a|exists t]; (split; [|done]).
      * apply list_elem_of_here.
      * by apply list_elem_of_further.
    + intros (t & [->|Ht]%elem_of_cons & Hnul); [by left|right; eauto].
Qed.

Lemma existsb_has_nul_false (l : list string) :
  existsb has_nul l = false ↔ ∀ t, t ∈ l → has_nul t = false.
Proof.
  rewrite <- not_true_iff_false, existsb_has_nul_true. split.
  - intros Hnone t Ht. apply not_true_iff_false. intros Hnul. apply Hnone. eauto.
  - intros Hall (t & Ht & Hnul). by rewrite (Hall t Ht) in Hnul.
Qed.

Lemma existsb_has_nul_perm (l k : list string) :
  l ≡ₚ k → existsb has_nul l = existsb has_nul k.
Proof.
  intros Hperm. apply eq_true_iff_eq. rewrite !existsb_has_nul_true.
  by setoid_rewrite Hperm.
Qed.

Lemma sent_same l : sent l l = [].
Proof. induction l as [|a l IH]; [done|]. cbn. by rewrite decide_True. Qed.

Lemma elem_of_sent old new t : t ∈ sent old new → t ∈ new.
Proof.
  revert new.
  induction old as [|a old IH]; intros [|b new]; cbn;
    try (by intros []%elem_of_nil).
  case_decide.
  - intros Ht. apply list_elem_of_further. by apply IH.
  - intros [->|Ht]%elem_of_cons; [apply list_elem_of_here|].
    apply list_elem_of_further. by apply IH.
Qed.

Lemma refuses_same l : refuses l l = false.
Proof. unfold refuses. by rewrite sent_same. Qed.

Lemma refuses_clean old new : existsb has_nul new = false → refuses old new = false.
Proof.
  unfold refuses. rewrite !existsb_has_nul_false. intros Hnew t Ht.
  by apply Hnew, (elem_of_sent old).
Qed.

Lemma unchanged_refl {R} (m : gmap Z R) : unchanged m m.
Proof. intros i r r0 Hr Hr0. congruence. Qed.

Lemma unchanged_delete {R} (m : gmap Z R) i : unchanged m (delete i m).
Proof. intros j r r0 [_ Hr]%lookup_delete_Some Hr0. congruence. Qed.

Lemma unchanged_filter {R} (P : Z * R → Prop) `{!∀ x, Decision (P x)}
    (m : gmap Z R) :
  unchanged m (filter P m).
Proof. intros j r r0 [Hr _]%map_lookup_filter_Some Hr0. congruence. Qed.

Lemma unchanged_insert_fresh {R} (m : gmap Z R) i r :
  m !! i = None → unchanged m (<[i := r]> m).
Proof.
  intros Hfresh j r1 r0 [[<- <-]|[_ Hr]]%lookup_insert_Some Hr0; congruence.
Qed.

Lemma table_text_unchanged {R} (text : R → list string) (old new : gmap Z R) :
  unchanged old new → table_text text old new = [].
Proof.
  intros Hsame. unfold table_text.
  assert (∀ ir, ir ∈ map_to_list new → new !! ir.1 = Some ir.2) as Hin.
  { intros [i r] Hir. by apply elem_of_map_to_list. }
  induction (map_to_list new) as [|[i r] l IH]; [done|].
  cbn [mbind list_bind]. rewrite IH.
  - pose proof (Hin (i, r) (list_elem_of_here _ _)) as Hr. cbn [fst snd] in *.
    destruct (old !! i) as [r0|] eqn:Hr0; [|done].
    rewrite (Hsame i r r0 Hr Hr0). by rewrite sent_same.
  - intros ir Hir. by apply Hin, list_elem_of_further.
Qed.

Lemma table_text_insert {R} (text : R → list string) (old : gmap Z R) i r0 r :
  old !! i = Some r0 →
  table_text text old (<[i := r]> old) ≡ₚ sent (text r0) (text r).
Proof.
  intros Hr0. unfold table_text.
  rewrite <- (insert_delete_eq old i r).
  rewrite map_to_list_insert by apply lookup_delete_eq.
  cbn [mbind list_bind fst snd]. rewrite Hr0.
  fold (table_text text old (delete i old)).
  rewrite table_text_unchanged by apply unchanged_delete.
  by rewrite app_nil_r.
Qed.

Lemma refused_unchanged db work :
  unchanged (users db) (users work) → unchanged (posts db) (posts work) →
  unchanged (tags db) (tags work) →
  refused db work = false.
Proof.
  intros Hu Hp Ht. unfold refused, update_text.
  by rewrite !table_text_unchanged.
Qed.

Lemma refused_users db work id r0 r :
  users db !! id = Some r0 → users work = <[id := r]> (users db) →
  unchanged (posts db) (posts work) → unchanged (tags db) (tags work) →
  refused db work = refuses (User.text r0) (User.text r).
Proof.
  intros Hr0 Hw Hp Ht. unfold refused, refuses, update_text. rewrite Hw.
  rewrite (table_text_unchanged Post.text), (table_text_unchanged Tag.text) by done.
  rewrite !app_nil_r. by apply existsb_has_nul_perm, table_text_insert.
Qed.

Lemma refused_posts db work id r0 r :
  posts db !! id = Some r0 → posts work = <[id := r]> (posts db) →
  unchanged (users db) (users work) → unchanged (tags db) (tags work) →
  refused db work = refuses (Post.text r0) (Post.text r).
Proof.
  intros Hr0 Hw Hu Ht. unfold refused, refuses, update_text. rewrite Hw.
  rewrite (table_text_unchanged User.text), (table_text_unchanged Tag.text) by done.
  rewrite app_nil_r. by apply existsb_has_nul_perm, table_text_insert.
Qed.

Lemma refused_tags db work id r0 r :
  tags db !! id = Some r0 → tags work = <[id := r]> (tags db) →
  unchanged (users db) (users work) → unchanged (posts db) (posts work) →
  refused db work = refuses (Tag.text r0) (Tag.text r).
Proof.
  intros Hr0 Hw Hu Hp. unfold refused, refuses, update_text. rewrite Hw.
  rewrite (table_text_unchanged User.text), (table_text_unchanged Post.text) by done.
  by apply existsb_has_nul_perm, table_text_insert.
Qed.

(** A table the transaction has not written, or has only deleted from or
    added new rows to. *)
Ltac quiet_table :=
  cbn [users posts tags];
  first [ apply unchanged_refl
        | apply unchanged_delete
        | apply unchanged_filter
        | apply unchanged_insert_fresh; assumption ].

Ltac quiet := apply refused_unchanged; quiet_table.

Lemma flush_run req db work d fl :
  flush req (mkSession db work d fl)
  = if refused db work
    then (mkSession db work d fl, Raise (ValueError nul_refused))
    else if decide (set_Exists (clashes (tags work)) d)
    then (mkSession db work d fl, Raise IntegrityError)
    else (mkSession db work ∅ fl, Return ()).
Proof. reflexivity. Qed.

Lemma flush_clean req db work fl :
  refused db work = false →
  flush req (mkSession db work ∅ fl) = (mkSession db work ∅ fl, Return ()).
Proof.
  intros Hclean. rewrite flush_run, Hclean. case_decide as Hex; [|done].
  destruct Hex as (i & Hi & _). set_solver.
Qed.

Lemma flush_nul req db work d fl :
  refused db work = true →
  flush req (mkSession db work d fl)
  = (mkSession db work d fl, Raise (ValueError nul_refused)).
Proof. intros Hnul. by rewrite flush_run, Hnul. Qed.

Lemma adapt_run params req sess :
  adapt params req sess
  = if existsb has_nul params then (sess, Raise (ValueError nul_refused))
    else (sess, Return ()).
Proof. unfold adapt. by destruct (existsb has_nul params). Qed.

Lemma has_nul_default : has_nul DEFAULT_IMAGE_URL = false.
Proof. reflexivity. Qed.

Lemma mapM_to_int_cons int num nums :
  mapM (to_int int) (num :: nums)
  = (n ← to_int int num; ns ← mapM (to_int int) nums; mret (n :: ns)).
Proof. reflexivity. Qed.

Lemma mapM_to_int_Some int nums ids req sess :
  mapM int nums = Some ids →
  mapM (to_int int) nums req sess = (sess, Return ids).
Proof.
  revert ids. induction nums as [|num nums IH]; intros ids Hids.
  - by injection Hids as <-.
  - rewrite mapM_to_int_cons. cbn in Hids.
    destruct (int num) as [n|] eqn:Hn; [|done]. cbn in Hids.
    destruct (mapM int nums) as [ns|]; [|done].
    injection Hids as <-.
    rewrite bind_run. unfold to_int at 1. rewrite Hn.
    rewrite ret_run, bind_run, (IH ns); done.
Qed.

Lemma mapM_to_int_None int nums req sess :
  mapM int nums = None →
  ∃ num, mapM (to_int int) nums req sess = (sess, Raise (ValueError num)).
Proof.
  induction nums as [|num nums IH]; intros Hids; [done|].
  rewrite mapM_to_int_cons, bind_run. cbn in Hids. unfold to_int at 1.
  destruct (int num) as [n|] eqn:Hn.
  - rewrite ret_run, bind_run.
    cbn in Hids. destruct (mapM int nums) as [ns|]; [done|].
    destruct IH as [bad ->]; [done|]. by exists bad.
  - by exists num.
Qed.

Ltac run_view :=
  repeat (progress (
    cbv [serve mbind mret View_bind View_ret get_or_404 get_pending raise
         modify_pending mark_dirty flash commit publish request_form
         request_form_getlist datetime_now query_all query_id_in insert_row
         assign_tags assign_posts add_user add_post add_tag delete_post
         delete_tag delete_user setattr_user setattr_post setattr_tag
         render_template redirect database pending dirty flashes
         set_users set_posts set_tags set_posts_tags set_users_id_seq
         set_posts_id_seq set_tags_id_seq users posts tags posts_tags
         users_id_seq posts_id_seq tags_id_seq teardown response flashed
         store handle_exception status_code same_rows];
    rewrite ?adapt_run, ?flush_clean by quiet)).

Ltac open_store s :=
  destruct s as [us ps ts pts useq pseq tseq];
  cbn [users posts tags posts_tags users_id_seq posts_id_seq tags_id_seq] in *.

(** The list comprehension over [int] is kept folded while a view runs. *)
Ltac fold_ints int parse := set (parse := mapM (to_int int)) in *.

Ltac ints_parse Hids :=
  match goal with
  | parse := mapM (to_int ?int) |- context [?p ?nums ?req ?sess] =>
      constr_eq p parse; subst parse;
      rewrite (mapM_to_int_Some int nums _ req sess Hids)
  end.

Ltac ints_fail Hids :=
  match goal with
  | parse := mapM (to_int ?int) |- context [?p ?nums ?req ?sess] =>
      constr_eq p parse; subst parse;
      let bad := fresh "bad" in
      let Hbad := fresh "Hbad" in
      destruct (mapM_to_int_None int nums req sess Hids) as [bad Hbad];
      rewrite Hbad; clear Hbad
  end.

Ltac use_lookups :=
  repeat (run_view;
          match goal with
          | H : ?x = _ |- context [match ?x with _ => _ end] => rewrite H
          | H : mapM _ _ = Some _ |- _ => ints_parse H
          | H : mapM _ _ = None |- _ => ints_fail H
          end);
  run_view.

(** Rewriting the flush a view has reached, with [tac] to say whether the
    driver takes the text it sends. *)
Ltac flush_with tac :=
  match goal with
  | |- context [flush ?req (mkSession ?db ?work ?d ?fl)] =>
      first [ rewrite (flush_nul req db work d fl) by tac
            | rewrite (flush_clean req db work fl) by tac ]
  end.
(** ** The join table and the tables under the session's writes *)

Lemma elem_of_tags_of s post_id t :
  t ∈ tags_of s post_id ↔ (post_id, t) ∈ posts_tags s.
Proof.
  unfold tags_of. rewrite elem_of_map. split.
  - intros ([p t'] & -> & Hin). apply elem_of_filter in Hin as [Hp Hin].
    cbn in Hp. by subst.
  - intros Hin. exists (post_id, t). split; [done|]. by apply elem_of_filter.
Qed.

Lemma elem_of_posts_of s tag_id p :
  p ∈ posts_of s tag_id ↔ (p, tag_id) ∈ posts_tags s.
Proof.
  unfold posts_of. rewrite elem_of_map. split.
  - intros ([p' t] & -> & Hin). apply elem_of_filter in Hin as [Ht Hin].
    cbn in Ht. by subst.
  - intros Hin. exists (p, tag_id). split; [done|]. by apply elem_of_filter.
Qed.

Lemma elem_of_assigned {R} (tbl : gmap Z R) (ids : list Z) (mk_pair : Z → Z * Z) pr :
  pr ∈ (list_to_set ((λ e : Z * R, mk_pair e.1) <$>
          map_to_list (filter (λ kv : Z * R, kv.1 ∈ ids) tbl)) : gset (Z * Z))
  ↔ ∃ i, pr = mk_pair i ∧ i ∈ ids ∧ is_Some (tbl !! i).
Proof.
  rewrite elem_of_list_to_set, list_elem_of_fmap. split.
  - intros ([i r] & -> & Hin). apply elem_of_map_to_list in Hin.
    apply map_lookup_filter_Some in Hin as [Hr Hi]. cbn in *. eauto.
  - intros (i & -> & Hi & [r Hr]). exists (i, r). split; [done|].
    apply elem_of_map_to_list. by apply map_lookup_filter_Some.
Qed.

Lemma elem_of_assign_tags (pts : gset (Z * Z)) (ts : gmap Z Tag.row) post_id
    (ids : list Z) p t :
  (p, t) ∈ filter (λ pt, pt.1 ≠ post_id) pts
           ∪ list_to_set ((λ e : Z * Tag.row, (post_id, e.1)) <$>
                map_to_list (filter (λ kv, kv.1 ∈ ids) ts))
  ↔ (p ≠ post_id ∧ (p, t) ∈ pts)
    ∨ (p = post_id ∧ t ∈ ids ∧ is_Some (ts !! t)).
Proof.
  rewrite elem_of_union, elem_of_filter,
    (elem_of_assigned ts ids (λ i, (post_id, i))). cbn [fst].
  split.
  - intros [?|(i & Heq & Hi & Hsome)]; [by left|]. injection Heq as -> ->.
    by right.
  - intros [?|(-> & Hi & Hsome)]; [by left|]. right. by exists t.
Qed.

Lemma elem_of_assign_posts (pts : gset (Z * Z)) (ps : gmap Z Post.row) tag_id
    (ids : list Z) p t :
  (p, t) ∈ filter (λ pt, pt.2 ≠ tag_id) pts
           ∪ list_to_set ((λ e : Z * Post.row, (e.1, tag_id)) <$>
                map_to_list (filter (λ kv, kv.1 ∈ ids) ps))
  ↔ (t ≠ tag_id ∧ (p, t) ∈ pts)
    ∨ (t = tag_id ∧ p ∈ ids ∧ is_Some (ps !! p)).
Proof.
  rewrite elem_of_union, elem_of_filter,
    (elem_of_assigned ps ids (λ i, (i, tag_id))). cbn [snd].
  split.
  - intros [?|(i & Heq & Hi & Hsome)]; [by left|]. injection Heq as -> ->.
    by right.
  - intros [?|(-> & Hi & Hsome)]; [by left|]. right. by exists p.
Qed.

Lemma alter_alter_Some {R} (f g : R → R) (i : Z) (m : gmap Z R) r :
  m !! i = Some r → alter f i (alter g i m) = <[i := f (g r)]> m.
Proof.
  intros Hr. apply map_eq. intros j. destruct (decide (i = j)) as [<-|Hne].
  - by rewrite lookup_alter_eq, lookup_alter_eq, Hr, lookup_insert_eq.
  - by rewrite lookup_alter_ne, lookup_alter_ne, lookup_insert_ne.
Qed.

Lemma alter_Some {R} (f : R → R) (i : Z) (m : gmap Z R) r :
  m !! i = Some r → alter f i m = <[i := f r]> m.
Proof.
  intros Hr. apply map_eq. intros j. destruct (decide (i = j)) as [<-|Hne].
  - by rewrite lookup_alter_eq, Hr, lookup_insert_eq.
  - by rewrite lookup_alter_ne, lookup_insert_ne.
Qed.

Lemma alter3_Some {R} (f g h : R → R) (i : Z) (m : gmap Z R) r :
  m !! i = Some r → alter f i (alter g i (alter h i m)) = <[i := f (g (h r))]> m.
Proof.
  intros Hr. apply map_eq. intros j. destruct (decide (i = j)) as [<-|Hne].
  - by rewrite !lookup_alter_eq, Hr, lookup_insert_eq.
  - by rewrite !lookup_alter_ne, lookup_insert_ne.
Qed.

Lemma elem_of_dom_posts_by s uid p :
  p ∈ dom (posts_by s uid)
  ↔ ∃ post, posts s !! p = Some post ∧ Post.user_id post = uid.
Proof.
  unfold posts_by. rewrite elem_of_dom. split.
  - intros [post Hpost]. apply map_lookup_filter_Some in Hpost. eauto.
  - intros (post & Hpost & Huid). exists post. by apply map_lookup_filter_Some.
Qed.

(** The UPDATE of the one row a view has assigned to. *)
Ltac sends_user Huser Hnul :=
  erewrite refused_users;
  [ exact Hnul | exact Huser
  | cbn [users]; by rewrite (alter3_Some _ _ _ _ _ _ Huser)
  | quiet_table | quiet_table ].

Ltac sends_post Hpost Hnul :=
  erewrite refused_posts;
  [ exact Hnul | exact Hpost
  | cbn [posts]; by rewrite (alter_alter_Some _ _ _ _ _ Hpost)
  | quiet_table | quiet_table ].

Ltac sends_tag Htag Hnul :=
  erewrite refused_tags;
  [ exact Hnul | exact Htag
  | cbn [tags]; by rewrite (alter_Some _ _ _ _ Htag)
  | quiet_table | quiet_table ].

(** ** What each writing view answers, on every request *)

Lemma users_new_serve req s :
  serve users_new req s
  = match form_lookup "first_name" (form req) with
    | None => answer (ErrorPage 400) s
    | Some first_name =>
        match form_lookup "last_name" (form req) with
        | None => answer (ErrorPage 400) s
        | Some last_name =>
            match form_lookup "image_url" (form req) with
            | None => answer (ErrorPage 400) s
            | Some image_url =>
                let new_user :=
                  User.mk first_name last_name
                    (if decide (image_url = "") then DEFAULT_IMAGE_URL
                     else image_url) in
                if existsb has_nul (User.text new_user)
                then answer (ErrorPage 500) s
                else
                  match users s !! users_id_seq s with
                  | Some _ =>
                      answer (ErrorPage 500) (set_users_id_seq (users_id_seq s + 1) s)
                  | None =>
                      {| response := Redirect "/users";
                         flashed := ["User " +:+ User.full_name new_user +:+ " added."];
                         store := set_users_id_seq (users_id_seq s + 1)
                                    (set_users (λ t, <[users_id_seq s := new_user]> t) s) |}
                  end
            end
        end
    end.
Proof.
  destruct (form_lookup "first_name" (form req)) as [first_name|] eqn:Hfirst;
    [destruct (form_lookup "last_name" (form req)) as [last_name|] eqn:Hlast;
     [destruct (form_lookup "image_url" (form req)) as [image_url|] eqn:Himage|]|];
    cbv zeta;
    [destruct (decide (image_url = "")) as [Hempty|Hgiven];
     (destruct (existsb has_nul (User.text _)) eqn:Hnul;
      [|destruct (users s !! users_id_seq s) as [taken|] eqn:Hseq])|..];
    open_store s; unfold users_new, answer; use_lookups;
    rewrite ?(decide_True _ _ Hempty), ?(decide_False _ _ Hgiven);
    cbv [default from_option id]; use_lookups; done.
Qed.

Lemma users_update_serve user_id req s :
  serve (users_update user_id) req s
  = match users s !! user_id with
    | None => answer page_not_found s
    | Some user =>
        match form_lookup "first_name" (form req) with
        | None => answer (ErrorPage 400) s
        | Some first_name =>
            match form_lookup "last_name" (form req) with
            | None => answer (ErrorPage 400) s
            | Some last_name =>
                match form_lookup "image_url" (form req) with
                | None => answer (ErrorPage 400) s
                | Some image_url =>
                    let edited := User.mk first_name last_name image_url in
                    if refuses (User.text user) (User.text edited)
                    then answer (ErrorPage 500) s
                    else
                      {| response := Redirect "/users";
                         flashed := ["User " +:+ User.full_name edited +:+ " edited."];
                         store := set_users (λ t, <[user_id := edited]> t) s |}
                end
            end
        end
    end.
Proof.
  destruct (users s !! user_id) as [user|] eqn:Huser;
    [destruct (form_lookup "first_name" (form req)) as [first_name|] eqn:Hfirst;
     [destruct (form_lookup "last_name" (form req)) as [last_name|] eqn:Hlast;
      [destruct (form_lookup "image_url" (form req)) as [image_url|] eqn:Himage;
       [cbv zeta; destruct (refuses _ _) eqn:Hnul|]|]|]|];
    open_store s; unfold users_update, answer; use_lookups; try done.
  - flush_with ltac:(sends_user Huser Hnul). by run_view.
  - flush_with ltac:(sends_user Huser Hnul). run_view.
    by rewrite (alter3_Some _ _ _ _ _ _ Huser).
Qed.

Lemma users_destroy_serve user_id req s :
  serve (users_destroy user_id) req s
  = match users s !! user_id with
    | None => answer page_not_found s
    | Some user =>
        {| response := Redirect "/users";
           flashed := ["User " +:+ User.full_name user +:+ " deleted."];
           store :=
             set_users (λ t, delete user_id t)
               (set_posts (λ t, filter (λ kv, kv.1 ∉ dom (posts_by s user_id)) t)
                 (set_posts_tags
                    (λ pts, filter (λ pt, pt.1 ∉ dom (posts_by s user_id)) pts) s)) |}
    end.
Proof.
  destruct (users s !! user_id) as [user|] eqn:Huser;
    open_store s; unfold users_destroy, answer; by use_lookups.
Qed.

Lemma posts_new_serve int user_id req s :
  serve (posts_new int user_id) req s
  = match users s !! user_id with
    | None => answer page_not_found s
    | Some user =>
        match mapM int (getlist "tags" (form req)) with
        | None => answer (ErrorPage 500) s
        | Some ids =>
            match form_lookup "title" (form req) with
            | None => answer (ErrorPage 400) s
            | Some title =>
                match form_lookup "content" (form req) with
                | None => answer (ErrorPage 400) s
                | Some content =>
                    let new_post := Post.mk title content (now req) user_id in
                    if existsb has_nul (Post.text new_post)
                    then answer (ErrorPage 500) s
                    else
                      match posts s !! posts_id_seq s with
                      | Some _ =>
                          answer (ErrorPage 500)
                            (set_posts_id_seq (posts_id_seq s + 1) s)
                      | None =>
                          {| response := Redirect ("/users/" +:+ pretty user_id);
                             flashed := ["Post '" +:+ title +:+ "' added."];
                             store :=
                               set_posts_id_seq (posts_id_seq s + 1)
                                 (set_posts
                                    (λ t, <[posts_id_seq s := new_post]> t)
                                    (set_posts_tags (λ pts,
                                       filter (λ pt, pt.1 ≠ posts_id_seq s) pts
                                       ∪ list_to_set
                                           ((λ t : Z * Tag.row, (posts_id_seq s, t.1)) <$>
                                            map_to_list
                                              (filter (λ kv, kv.1 ∈ ids) (tags s)))) s)) |}
                      end
                end
            end
        end
    end.
Proof.
  destruct (users s !! user_id) as [user|] eqn:Huser;
    [destruct (mapM int (getlist "tags" (form req))) as [ids|] eqn:Hids;
     [destruct (form_lookup "title" (form req)) as [title|] eqn:Htitle;
      [destruct (form_lookup "content" (form req)) as [content|] eqn:Hcontent;
       [cbv zeta; destruct (existsb has_nul (Post.text _)) eqn:Hnul;
        [|destruct (posts s !! posts_id_seq s) as [taken|] eqn:Hseq]|]|]|]|];
    open_store s; unfold posts_new, answer; fold_ints int parse; use_lookups;
    cbn [fst]; by use_lookups.
Qed.

Lemma posts_update_serve int post_id req s :
  serve (posts_update int post_id) req s
  = match posts s !! post_id with
    | None => answer page_not_found s
    | Some post =>
        match form_lookup "title" (form req) with
        | None => answer (ErrorPage 400) s
        | Some title =>
            match form_lookup "content" (form req) with
            | None => answer (ErrorPage 400) s
            | Some content =>
                match mapM int (getlist "tags" (form req)) with
                | None => answer (ErrorPage 500) s
                | Some ids =>
                    let edited :=
                      Post.mk title content (Post.created_at post)
                        (Post.user_id post) in
                    if refuses (Post.text post) (Post.text edited)
                    then answer (ErrorPage 500) s
                    else
                      {| response := Redirect ("/users/" +:+ pretty (Post.user_id post));
                         flashed := ["Post '" +:+ title +:+ "' edited."];
                         store :=
                           set_posts (λ t, <[post_id := edited]> t)
                             (set_posts_tags (λ pts,
                                filter (λ pt, pt.1 ≠ post_id) pts
                                ∪ list_to_set
                                    ((λ t : Z * Tag.row, (post_id, t.1)) <$>
                                     map_to_list
                                       (filter (λ kv, kv.1 ∈ ids) (tags s)))) s) |}
                end
            end
        end
    end.
Proof.
  destruct (posts s !! post_id) as [post|] eqn:Hpost;
    [destruct (form_lookup "title" (form req)) as [title|] eqn:Htitle;
     [destruct (form_lookup "content" (form req)) as [content|] eqn:Hcontent;
      [destruct (mapM int (getlist "tags" (form req))) as [ids|] eqn:Hids;
       [cbv zeta; destruct (refuses _ _) eqn:Hnul|]|]|]|];
    open_store s; unfold posts_update, answer; fold_ints int parse; use_lookups;
    try done.
  - flush_with ltac:(sends_post Hpost Hnul). by run_view.
  - flush_with ltac:(sends_post Hpost Hnul). run_view.
    flush_with ltac:(sends_post Hpost Hnul). run_view.
    by rewrite (alter_alter_Some _ _ _ _ _ Hpost).
Qed.

Lemma posts_destroy_serve post_id req s :
  serve (posts_destroy post_id) req s
  = match posts s !! post_id with
    | None => answer page_not_found s
    | Some post =>
        {| response := Redirect ("/users/" +:+ pretty (Post.user_id post));
           flashed := ["Post '" +:+ Post.title post +:+ " deleted."];
           store :=
             set_posts (λ t, delete post_id t)
               (set_posts_tags (λ pts, filter (λ pt, pt.1 ≠ post_id) pts) s) |}
    end.
Proof.
  destruct (posts s !! post_id) as [post|] eqn:Hpost;
    open_store s; unfold posts_destroy, answer; by use_lookups.
Qed.

Lemma tags_destroy_serve tag_id req s :
  serve (tags_destroy tag_id) req s
  = match tags s !! tag_id with
    | None => answer page_not_found s
    | Some tag =>
        {| response := Redirect "/tags";
           flashed := ["Tag '" +:+ Tag.name tag +:+ "' deleted."];
           store :=
             set_tags (λ t, delete tag_id t)
               (set_posts_tags (λ pts, filter (λ pt, pt.2 ≠ tag_id) pts) s) |}
    end.
Proof.
  destruct (tags s !! tag_id) as [tag|] eqn:Htag;
    open_store s; unfold tags_destroy, answer; by use_lookups.
Qed.

(** ** The unique index on tag names *)

Lemma clashes_iff t i :
  clashes t i
  ↔ ∃ ti j tj, t !! i = Some ti ∧ j ≠ i ∧ t !! j = Some tj
               ∧ Tag.name tj = Tag.name ti.
Proof.
  unfold clashes. destruct (t !! i) as [ti|] eqn:Hi.
  - rewrite list_elem_of_fmap. split.
    + intros (tj & Hname & Hin). apply list_elem_of_fmap in Hin as ([j tj'] & -> & Hin).
      apply elem_of_map_to_list, lookup_delete_Some in Hin as [Hne Hj].
      exists ti, j, tj'. by rewrite Hname.
    + intros (ti' & j & tj & Heq & Hne & Hj & Hname). injection Heq as <-.
      exists tj. split; [done|]. apply list_elem_of_fmap. exists (j, tj).
      split; [done|]. by apply elem_of_map_to_list, lookup_delete_Some.
  - split; [done|]. by intros (ti & j & tj & Heq & _).
Qed.

Lemma elem_of_names (t : gmap Z Tag.row) name :
  name ∈ names t ↔ ∃ i ti, t !! i = Some ti ∧ Tag.name ti = name.
Proof.
  unfold names. rewrite list_elem_of_fmap. split.
  - intros (ti & -> & Hin). apply list_elem_of_fmap in Hin as ([i ti'] & -> & Hin).
    apply elem_of_map_to_list in Hin. by exists i, ti'.
  - intros (i & ti & Hi & <-). exists ti. split; [done|].
    apply list_elem_of_fmap. exists (i, ti). split; [done|].
    by apply elem_of_map_to_list.
Qed.

Lemma clashes_insert (t : gmap Z Tag.row) i r :
  t !! i = None → clashes (<[i := r]> t) i ↔ Tag.name r ∈ names t.
Proof.
  intros Hfresh. unfold clashes.
  by rewrite lookup_insert_eq, delete_insert_id.
Qed.

Lemma clashes_alter (t : gmap Z Tag.row) i f r :
  t !! i = Some r →
  clashes (alter f i t) i ↔ Tag.name (f r) ∈ names (delete i t).
Proof.
  intros Hi. unfold clashes.
  by rewrite lookup_alter_eq, Hi, delete_alter_eq.
Qed.

Lemma flush_one req db work i fl :
  refused db work = false →
  flush req (mkSession db work ({[i]} ∪ ∅) fl)
  = if decide (clashes (tags work) i)
    then (mkSession db work ({[i]} ∪ ∅) fl, Raise IntegrityError)
    else (mkSession db work ∅ fl, Return ()).
Proof.
  intros Hclean. rewrite flush_run, Hclean.
  assert (set_Exists (clashes (tags work)) ({[i]} ∪ ∅ : gset Z) ↔ clashes (tags work) i)
    as Hiff.
  { split.
    - intros (j & Hj & Hc). apply elem_of_union in Hj as [Hj|Hj]; [|set_solver].
      by apply elem_of_singleton in Hj as ->.
    - intros Hc. exists i. split; [|done].
      apply elem_of_union_l. by apply elem_of_singleton. }
  destruct (decide (clashes (tags work) i)) as [Hc|Hc].
  - by rewrite decide_True by by apply Hiff.
  - by rewrite decide_False by by rewrite Hiff.
Qed.

Lemma tags_new_serve int req s :
  serve (tags_new int) req s
  = match mapM int (getlist "posts" (form req)) with
    | None => answer (ErrorPage 500) s
    | Some ids =>
        match form_lookup "name" (form req) with
        | None => answer (ErrorPage 400) s
        | Some name =>
            if existsb has_nul (Tag.text (Tag.mk name))
            then answer (ErrorPage 500) s
            else
              match tags s !! tags_id_seq s with
              | Some _ => answer (ErrorPage 500) (set_tags_id_seq (tags_id_seq s + 1) s)
              | None =>
                  if decide (name ∈ names (tags s))
                  then answer (ErrorPage 500) (set_tags_id_seq (tags_id_seq s + 1) s)
                  else
                    {| response := Redirect "/tags";
                       flashed := ["Tag '" +:+ name +:+ "' added."];
                       store :=
                         set_tags_id_seq (tags_id_seq s + 1)
                           (set_tags (λ t, <[tags_id_seq s := Tag.mk name]> t)
                              (set_posts_tags (λ pts,
                                 filter (λ pt, pt.2 ≠ tags_id_seq s) pts
                                 ∪ list_to_set
                                     ((λ p : Z * Post.row, (p.1, tags_id_seq s)) <$>
                                      map_to_list
                                        (filter (λ kv, kv.1 ∈ ids) (posts s)))) s)) |}
              end
        end
    end.
Proof.
  destruct (mapM int (getlist "posts" (form req))) as [ids|] eqn:Hids;
    [destruct (form_lookup "name" (form req)) as [name|] eqn:Hname;
     [destruct (existsb has_nul (Tag.text _)) eqn:Hnul;
      [|destruct (tags s !! tags_id_seq s) as [taken|] eqn:Hseq]|]|];
    open_store s; unfold tags_new, answer; fold_ints int parse; use_lookups;
    try done.
  rewrite flush_one by quiet. cbn [tags].
  pose proof (clashes_insert ts tseq (Tag.mk name) Hseq) as Hiff. cbn [Tag.name] in Hiff.
  destruct (decide (name ∈ names ts)) as [Hin|Hout].
  - rewrite decide_True by by apply Hiff. by run_view.
  - rewrite decide_False by by rewrite Hiff. by run_view.
Qed.

Lemma tags_edit_serve int tag_id req s :
  serve (tags_edit int tag_id) req s
  = match tags s !! tag_id with
    | None => answer page_not_found s
    | Some tag =>
        match form_lookup "name" (form req) with
        | None => answer (ErrorPage 400) s
        | Some name =>
            match mapM int (getlist "posts" (form req)) with
            | None => answer (ErrorPage 500) s
            | Some ids =>
                if refuses (Tag.text tag) (Tag.text (Tag.mk name))
                then answer (ErrorPage 500) s
                else if decide (name ∈ names (delete tag_id (tags s)))
                then answer (ErrorPage 500) s
                else
                  {| response := Redirect "/tags";
                     flashed := ["Tag '" +:+ name +:+ "' edited."];
                     store :=
                       set_tags (λ t, <[tag_id := Tag.mk name]> t)
                         (set_posts_tags (λ pts,
                            filter (λ pt, pt.2 ≠ tag_id) pts
                            ∪ list_to_set
                                ((λ p : Z * Post.row, (p.1, tag_id)) <$>
                                 map_to_list
                                   (filter (λ kv, kv.1 ∈ ids) (posts s)))) s) |}
            end
        end
    end.
Proof.
  destruct (tags s !! tag_id) as [tag|] eqn:Htag;
    [destruct (form_lookup "name" (form req)) as [name|] eqn:Hname;
     [destruct (mapM int (getlist "posts" (form req))) as [ids|] eqn:Hids;
      [destruct (refuses _ _) eqn:Hnul|]|]|];
    open_store s; unfold tags_edit, answer; fold_ints int parse; use_lookups;
    try done.
  - flush_with ltac:(sends_tag Htag Hnul). by run_view.
  - rewrite flush_one by sends_tag Htag Hnul. cbn [tags].
    pose proof (clashes_alter ts tag_id (λ _, Tag.mk name) tag Htag) as Hiff.
    cbn [Tag.name] in Hiff.
    destruct (decide (name ∈ names (delete tag_id ts))) as [Hin|Hout].
    + rewrite decide_True by by apply Hiff. by run_view.
    + rewrite decide_False by by rewrite Hiff. run_view.
      flush_with ltac:(sends_tag Htag Hnul). run_view.
      by rewrite (alter_Some _ _ _ _ Htag).
Qed.
(** ** The homepage query *)

#[global] Instance later_trans : Transitive later.
Proof. unfold later. intros p q r Hpq Hqr. lia. Qed.

#[global] Instance later_total : Total later.
Proof. unfold later. intros p q. lia. Qed.

Lemma order_by_created_at_desc_perm ps : order_by_created_at_desc ps ≡ₚ ps.
Proof. apply merge_sort_Permutation. Qed.

Lemma order_by_created_at_desc_sorted ps :
  StronglySorted later (order_by_created_at_desc ps).
Proof. apply StronglySorted_merge_sort; apply _. Qed.

Lemma root_run req s :
  serve root req s
  = {| response :=
         Page 200 "posts/homepage.html"
           [("posts", some_posts
               (take 5 (order_by_created_at_desc (map_to_list (posts s)))))];
       flashed := []; store := s |}.
Proof. open_store s. unfold root. by run_view. Qed.

(** ** Tag names stay unique *)

Section preserves.
Context {J : Session → Prop}.

Lemma preserves_ret {A} (a : A) : preserves J (mret a).
Proof. by intros req sess HJ. Qed.

Lemma preserves_raise {A} e : preserves J (raise e : View A).
Proof. by intros req sess HJ. Qed.

Lemma preserves_bind {A B} (m : View A) (f : A → View B) :
  preserves J m → (∀ a, preserves J (f a)) → preserves J (m ≫= f).
Proof.
  intros Hm Hf req sess HJ. rewrite bind_run. specialize (Hm req sess HJ).
  destruct (m req sess) as [sess' [a|e]]; [by apply Hf|done].
Qed.

Lemma preserves_mapM_to_int int nums : preserves J (mapM (to_int int) nums).
Proof.
  induction nums as [|num nums IH]; [apply preserves_ret|].
  rewrite mapM_to_int_cons. apply preserves_bind.
  - unfold to_int. destruct (int num); [apply preserves_ret|apply preserves_raise].
  - intros n. apply preserves_bind; [done|]. intros ns. apply preserves_ret.
Qed.
End preserves.

Lemma tag_neutral_preserves {A} (view : View A) :
  tag_neutral view → preserves names_checked view.
Proof.
  intros Hview req sess [Hdb Hpend]. destruct (Hview req sess) as (Hd & Ht & Hdirty).
  split; [by rewrite Hd|]. rewrite Ht, Hdirty. done.
Qed.

Lemma tag_neutral_modify (f : Store → Store) :
  (∀ s, tags (f s) = tags s) → tag_neutral (modify_pending f).
Proof. intros Hf req sess. cbn. by rewrite Hf. Qed.

Lemma preserves_get_or_404 {R} (table : Store → gmap Z R) id :
  preserves names_checked (get_or_404 table id).
Proof.
  apply tag_neutral_preserves. intros req sess. unfold get_or_404. run_view.
  by destruct (table _ !! id).
Qed.

Lemma preserves_request_form key : preserves names_checked (request_form key).
Proof.
  apply tag_neutral_preserves. intros req sess. unfold request_form.
  by destruct (form_lookup key (form req)).
Qed.

Lemma preserves_flash message : preserves names_checked (flash message).
Proof. by apply tag_neutral_preserves. Qed.

Lemma preserves_modify (f : Store → Store) :
  (∀ s, tags (f s) = tags s) → preserves names_checked (modify_pending f).
Proof. intros Hf. by apply tag_neutral_preserves, tag_neutral_modify. Qed.

Lemma preserves_adapt params : preserves names_checked (adapt params).
Proof.
  apply tag_neutral_preserves. intros req sess. rewrite adapt_run.
  by destruct (existsb has_nul params).
Qed.

Lemma preserves_flush : preserves names_checked flush.
Proof.
  intros req sess [Hdb Hpend]. unfold flush.
  destruct (refused _ _); [done|]. case_decide as Hex; [done|].
  split; [done|]. cbn [fst pending dirty]. intros i j ti tj Hi Hj Hname Hne.
  destruct Hex.
  destruct (Hpend i j ti tj Hi Hj Hname Hne) as [Hd|Hd].
  - exists i. split; [done|]. apply clashes_iff. by exists ti, j, tj.
  - exists j. split; [done|]. apply clashes_iff. exists tj, i, ti. auto.
Qed.

Lemma preserves_commit : preserves names_checked commit.
Proof.
  intros req sess [Hdb Hpend]. unfold commit. rewrite bind_run.
  unfold flush. destruct (refused _ _); [done|]. case_decide as Hex; [done|]. cbn.
  assert (unique_names (tags (pending sess))) as Hunique.
  { intros i j ti tj Hi Hj Hname. destruct (decide (i = j)) as [|Hne]; [done|].
    destruct Hex.
    destruct (Hpend i j ti tj Hi Hj Hname Hne) as [Hd|Hd].
    - exists i. split; [done|]. apply clashes_iff. by exists ti, j, tj.
    - exists j. split; [done|]. apply clashes_iff. exists tj, i, ti. auto. }
  split; [done|]. cbn. intros i j ti tj Hi Hj Hname Hne.
  by destruct (Hne (Hunique i j ti tj Hi Hj Hname)).
Qed.

Lemma preserves_setattr_tag id f : preserves names_checked (setattr_tag id f).
Proof.
  intros req [db work d fl] [Hdb Hpend]. unfold setattr_tag. run_view.
  split; [done|]. cbn [fst pending dirty tags] in *.
  intros i j ti tj Hi Hj Hname Hne.
  destruct (decide (i = id)) as [->|Hi']; [set_solver|].
  destruct (decide (j = id)) as [->|Hj']; [set_solver|].
  rewrite lookup_alter_ne in Hi, Hj by done.
  destruct (Hpend i j ti tj Hi Hj Hname Hne); set_solver.
Qed.

Lemma preserves_delete_tag id : preserves names_checked (delete_tag id).
Proof.
  intros req [db work d fl] [Hdb Hpend]. unfold delete_tag. run_view.
  split; [done|]. cbn [fst pending dirty tags] in *.
  intros i j ti tj Hi Hj Hname Hne.
  apply lookup_delete_Some in Hi as [_ Hi], Hj as [_ Hj]. eauto.
Qed.

Lemma preserves_add_tag name new_posts :
  preserves names_checked (add_tag name new_posts).
Proof.
  intros req [db work d fl] [Hdb Hpend]. open_store work.
  cbn [database pending dirty tags] in Hdb, Hpend.
  unfold add_tag. run_view.
  destruct (existsb has_nul _); run_view; [done|].
  destruct (ts !! tseq) eqn:Hfresh; run_view; (split; [done|]);
    cbn [fst pending dirty tags]; [done|].
  intros i j ti tj Hi Hj Hname Hne.
  destruct (decide (i = tseq)) as [->|Hi']; [set_solver|].
  destruct (decide (j = tseq)) as [->|Hj']; [set_solver|].
  rewrite lookup_insert_ne in Hi, Hj by done.
  destruct (Hpend i j ti tj Hi Hj Hname Hne); set_solver.
Qed.

Ltac preserve :=
  repeat first
    [ apply preserves_commit
    | apply preserves_setattr_tag
    | apply preserves_delete_tag
    | apply preserves_add_tag
    | apply preserves_adapt
    | apply preserves_mapM_to_int
    | apply preserves_get_or_404
    | apply preserves_bind; [|intros ?]
    | apply preserves_ret
    | apply preserves_raise
    | apply preserves_request_form
    | apply preserves_flash
    | apply preserves_flush
    | apply preserves_modify; by intros []
    | by apply tag_neutral_preserves
    | match goal with
      | |- preserves _ (match ?x with _ => _ end) => destruct x
      end ].

Lemma preserves_view_function int e :
  preserves names_checked (view_function int e).
Proof.
  destruct e; cbn [view_function];
    unfold root, users_new, users_show, users_edit, users_update,
      users_destroy, posts_new_form, posts_new, posts_show, posts_edit,
      posts_update, posts_destroy, tags_new, tags_show, tags_edit_form,
      tags_edit, tags_destroy, render_template, redirect, query_all,
      query_id_in, add_user, add_post, insert_row, assign_tags,
      assign_posts, setattr_user, setattr_post, delete_user, delete_post;
    preserve.
Qed.

Lemma serve_unique_names (view : View Response) req s :
  preserves names_checked view →
  unique_names (tags s) → unique_names (tags (store (serve view req s))).
Proof.
  intros Hview Hs. unfold serve.
  set (start := {| database := s; pending := s; dirty := ∅; flashes := [] |}).
  assert (names_checked start) as Hstart.
  { split; [done|]. intros i j ti tj Hi Hj Hname Hne.
    by destruct (Hne (Hs i j ti tj Hi Hj Hname)). }
  destruct (Hview req start Hstart) as [Hdb _].
  by destruct (view req start) as [sess [r|e]].
Qed.

Lemma reachable_unique_names int s : reachable int s → unique_names (tags s).
Proof.
  induction 1 as [|s e req _ IH].
  - intros i j ti tj Hi. cbn [create_all tags] in Hi. by rewrite lookup_empty in Hi.
  - by apply serve_unique_names; [apply preserves_view_function|].
Qed.

(** ** The sequences stay ahead of the ids *)

Lemma ahead_modify (f : Store → Store) :
  (∀ s, users_id_seq (f s) = users_id_seq s
        ∧ posts_id_seq (f s) = posts_id_seq s
        ∧ tags_id_seq (f s) = tags_id_seq s) →
  (∀ s i, is_Some (users (f s) !! i) → is_Some (users s !! i)) →
  (∀ s i, is_Some (posts (f s) !! i) → is_Some (posts s !! i)) →
  (∀ s i, is_Some (tags (f s) !! i) → is_Some (tags s !! i)) →
  preserves sequences_ahead (modify_pending f).
Proof.
  intros Hseq Hu Hp Ht req [db work d fl] [Hdb Hwork].
  cbn [database pending] in Hdb, Hwork. cbn.
  destruct (Hseq work) as (Hseq1 & Hseq2 & Hseq3).
  unfold sequences_ahead, ahead. cbn [database pending].
  rewrite Hseq1, Hseq2, Hseq3.
  destruct Hdb as (Hdb1 & Hdb2 & Hdb3), Hwork as (Hw1 & Hw2 & Hw3).
  split_and!; eauto.
Qed.

Lemma ahead_neutral {A} (view : View A) :
  (∀ req sess, database (view req sess).1 = database sess
               ∧ pending (view req sess).1 = pending sess) →
  preserves sequences_ahead view.
Proof.
  intros Hview req sess HJ. destruct (Hview req sess) as [Hdb Hwork].
  unfold sequences_ahead. by rewrite Hdb, Hwork.
Qed.

Lemma ahead_get_or_404 {R} (table : Store → gmap Z R) id :
  preserves sequences_ahead (get_or_404 table id).
Proof.
  apply ahead_neutral. intros req sess. unfold get_or_404. run_view.
  by destruct (table _ !! id).
Qed.

Lemma ahead_request_form key : preserves sequences_ahead (request_form key).
Proof.
  apply ahead_neutral. intros req sess. unfold request_form.
  by destruct (form_lookup key (form req)).
Qed.

Lemma ahead_flush : preserves sequences_ahead flush.
Proof.
  apply ahead_neutral. intros req sess. unfold flush.
  destruct (refused _ _); [done|]. by case_decide.
Qed.

Lemma ahead_publish : preserves sequences_ahead publish.
Proof. intros req sess [Hdb Hwork]. by split. Qed.

Lemma ahead_add_user first_name last_name image_url :
  preserves sequences_ahead (add_user first_name last_name image_url).
Proof.
  intros req [db work d fl] [Hdb Hwork]. open_store work.
  unfold sequences_ahead, ahead in *.
  cbn [database pending users posts tags users_id_seq posts_id_seq tags_id_seq]
    in Hdb, Hwork.
  destruct Hdb as (Hdb1 & Hdb2 & Hdb3), Hwork as (Hw1 & Hw2 & Hw3).
  unfold add_user. run_view.
  destruct (existsb has_nul _); run_view; [done|].
  destruct (us !! useq) eqn:Hfresh; run_view;
    cbn [fst database pending users posts tags users_id_seq posts_id_seq
         tags_id_seq];
    split_and!; try done; intros i Hi;
    try (apply lookup_insert_is_Some in Hi as [->|[_ Hi]]; [lia|]);
    first [apply Hdb1 in Hi|apply Hw1 in Hi]; lia.
Qed.

Lemma ahead_add_post title content user new_tags :
  preserves sequences_ahead (add_post title content user new_tags).
Proof.
  intros req [db work d fl] [Hdb Hwork]. open_store work.
  unfold sequences_ahead, ahead in *.
  cbn [database pending users posts tags users_id_seq posts_id_seq tags_id_seq]
    in Hdb, Hwork.
  destruct Hdb as (Hdb1 & Hdb2 & Hdb3), Hwork as (Hw1 & Hw2 & Hw3).
  unfold add_post. run_view.
  destruct (existsb has_nul _); run_view; [done|].
  destruct (ps !! pseq) eqn:Hfresh; run_view;
    cbn [fst database pending users posts tags users_id_seq posts_id_seq
         tags_id_seq];
    split_and!; try done; intros i Hi;
    try (apply lookup_insert_is_Some in Hi as [->|[_ Hi]]; [lia|]);
    first [apply Hdb2 in Hi|apply Hw2 in Hi]; lia.
Qed.

Lemma ahead_add_tag name new_posts :
  preserves sequences_ahead (add_tag name new_posts).
Proof.
  intros req [db work d fl] [Hdb Hwork]. open_store work.
  unfold sequences_ahead, ahead in *.
  cbn [database pending users posts tags users_id_seq posts_id_seq tags_id_seq]
    in Hdb, Hwork.
  destruct Hdb as (Hdb1 & Hdb2 & Hdb3), Hwork as (Hw1 & Hw2 & Hw3).
  unfold add_tag. run_view.
  destruct (existsb has_nul _); run_view; [done|].
  destruct (ts !! tseq) eqn:Hfresh; run_view;
    cbn [fst database pending users posts tags users_id_seq posts_id_seq
         tags_id_seq];
    split_and!; try done; intros i Hi;
    try (apply lookup_insert_is_Some in Hi as [->|[_ Hi]]; [lia|]);
    first [apply Hdb3 in Hi|apply Hw3 in Hi]; lia.
Qed.

Ltac keeps_ids :=
  intros [] ?; cbn;
  rewrite ?lookup_alter_is_Some, ?lookup_delete_is_Some,
    ?map_lookup_filter_Some; try done;
  try (intros [? ?]; eauto; done);
  try (intros [? [? ?]%map_lookup_filter_Some]; eauto; done).

Ltac ahead_step :=
  repeat first
    [ apply ahead_add_user
    | apply ahead_add_post
    | apply ahead_add_tag
    | apply preserves_mapM_to_int
    | apply ahead_get_or_404
    | apply preserves_bind; [|intros ?]
    | apply preserves_ret
    | apply preserves_raise
    | apply ahead_request_form
    | apply ahead_flush
    | apply ahead_publish
    | by apply ahead_neutral
    | apply ahead_modify; [by intros []|keeps_ids..] ].

Lemma ahead_view_function int e :
  preserves sequences_ahead (view_function int e).
Proof.
  destruct e; cbn [view_function];
    unfold root, users_new, users_show, users_edit, users_update,
      users_destroy, posts_new_form, posts_new, posts_show, posts_edit,
      posts_update, posts_destroy, tags_new, tags_show, tags_edit_form,
      tags_edit, tags_destroy, render_template, redirect, query_all,
      query_id_in, assign_tags, assign_posts, setattr_user, setattr_post,
      setattr_tag, delete_user, delete_post, delete_tag, commit;
    ahead_step.
Qed.

Lemma serve_ahead (view : View Response) req s :
  preserves sequences_ahead view →
  ahead s s → ahead (store (serve view req s)) (store (serve view req s)).
Proof.
  intros Hview Hs. unfold serve.
  set (start := {| database := s; pending := s; dirty := ∅; flashes := [] |}).
  assert (sequences_ahead start) as Hstart by done.
  destruct (Hview req start Hstart) as [Hdb _].
  by destruct (view req start) as [sess [r|e]].
Qed.

Lemma reachable_ahead int s : reachable int s → ahead s s.
Proof.
  induction 1 as [|s e req _ IH].
  - unfold ahead. cbn [create_all users posts tags].
    split_and!; intros i [? Hi]; by rewrite lookup_empty in Hi.
  - by apply serve_ahead; [apply ahead_view_function|].
Qed.

Lemma reachable_fresh_ids int s :
  reachable int s →
  users s !! users_id_seq s = None
  ∧ posts s !! posts_id_seq s = None
  ∧ tags s !! tags_id_seq s = None.
Proof.
  intros (Hu & Hp & Ht)%reachable_ahead.
  split_and!; apply eq_None_not_Some; intros Hi.
  - apply Hu in Hi. lia.
  - apply Hp in Hi. lia.
  - apply Ht in Hi. lia.
Qed.

(** ** The writing views on a request that goes through *)

Lemma takes_user first_name last_name image_url :
  has_nul first_name = false → has_nul last_name = false →
  has_nul image_url = false →
  existsb has_nul (User.text (User.mk first_name last_name image_url)) = false.
Proof. intros H1 H2 H3. cbn. by rewrite H1, H2, H3. Qed.

Lemma takes_post title content created_at user_id :
  has_nul title = false → has_nul content = false →
  existsb has_nul (Post.text (Post.mk title content created_at user_id)) = false.
Proof. intros H1 H2. cbn. by rewrite H1, H2. Qed.

Lemma takes_tag name :
  has_nul name = false → existsb has_nul (Tag.text (Tag.mk name)) = false.
Proof. intros H1. cbn. by rewrite H1. Qed.

Lemma posts_update_run int post_id req s post title content ids :
  posts s !! post_id = Some post →
  form_lookup "title" (form req) = Some title →
  form_lookup "content" (form req) = Some content →
  mapM int (getlist "tags" (form req)) = Some ids →
  refuses (Post.text post) [title; content] = false →
  serve (posts_update int post_id) req s
  = {| response := Redirect ("/users/" +:+ pretty (Post.user_id post));
       flashed := ["Post '" +:+ title +:+ "' edited."];
       store :=
         {| users := users s;
            posts := <[post_id := Post.mk title content (Post.created_at post)
                                          (Post.user_id post)]> (posts s);
            tags := tags s;
            posts_tags :=
              filter (λ pt, pt.1 ≠ post_id) (posts_tags s)
              ∪ list_to_set ((λ t : Z * Tag.row, (post_id, t.1)) <$>
                   map_to_list (filter (λ kv, kv.1 ∈ ids) (tags s)));
            users_id_seq := users_id_seq s;
            posts_id_seq := posts_id_seq s;
            tags_id_seq := tags_id_seq s |} |}.
Proof.
  intros Hpost Htitle Hcontent Hids Htakes.
  rewrite posts_update_serve, Hpost, Htitle, Hcontent, Hids. cbv zeta.
  change (Post.text (Post.mk title content (Post.created_at post) (Post.user_id post)))
    with [title; content].
  by rewrite Htakes.
Qed.

Lemma users_new_run req s first_name last_name image_url :
  form_lookup "first_name" (form req) = Some first_name →
  form_lookup "last_name" (form req) = Some last_name →
  form_lookup "image_url" (form req) = Some image_url →
  has_nul first_name = false → has_nul last_name = false →
  has_nul image_url = false →
  users s !! users_id_seq s = None →
  serve users_new req s
  = let new_user :=
      User.mk first_name last_name
        (if decide (image_url = "") then DEFAULT_IMAGE_URL else image_url) in
    {| response := Redirect "/users";
       flashed := ["User " +:+ User.full_name new_user +:+ " added."];
       store := set_users_id_seq (users_id_seq s + 1)
                  (set_users (λ t, <[users_id_seq s := new_user]> t) s) |}.
Proof.
  intros Hfirst Hlast Himage H1 H2 H3 Hfresh.
  rewrite users_new_serve, Hfirst, Hlast, Himage, Hfresh. cbv zeta.
  rewrite takes_user; [done..|]. by case_decide.
Qed.

Lemma users_update_run user_id req s user first_name last_name image_url :
  users s !! user_id = Some user →
  form_lookup "first_name" (form req) = Some first_name →
  form_lookup "last_name" (form req) = Some last_name →
  form_lookup "image_url" (form req) = Some image_url →
  refuses (User.text user) [first_name; last_name; image_url] = false →
  serve (users_update user_id) req s
  = let edited := User.mk first_name last_name image_url in
    {| response := Redirect "/users";
       flashed := ["User " +:+ User.full_name edited +:+ " edited."];
       store := set_users (λ t, <[user_id := edited]> t) s |}.
Proof.
  intros Huser Hfirst Hlast Himage Htakes.
  rewrite users_update_serve, Huser, Hfirst, Hlast, Himage. cbv zeta.
  change (User.text (User.mk first_name last_name image_url))
    with [first_name; last_name; image_url].
  by rewrite Htakes.
Qed.

Lemma users_destroy_run user_id req s user :
  users s !! user_id = Some user →
  serve (users_destroy user_id) req s
  = {| response := Redirect "/users";
       flashed := ["User " +:+ User.full_name user +:+ " deleted."];
       store :=
         set_users (λ t, delete user_id t)
           (set_posts (λ t, filter (λ kv, kv.1 ∉ dom (posts_by s user_id)) t)
             (set_posts_tags
                (λ pts, filter (λ pt, pt.1 ∉ dom (posts_by s user_id)) pts) s)) |}.
Proof. intros Huser. by rewrite users_destroy_serve, Huser. Qed.

Lemma tags_destroy_run tag_id req s tag :
  tags s !! tag_id = Some tag →
  serve (tags_destroy tag_id) req s
  = {| response := Redirect "/tags";
       flashed := ["Tag '" +:+ Tag.name tag +:+ "' deleted."];
       store :=
         set_tags (λ t, delete tag_id t)
           (set_posts_tags (λ pts, filter (λ pt, pt.2 ≠ tag_id) pts) s) |}.
Proof. intros Htag. by rewrite tags_destroy_serve, Htag. Qed.

Lemma names_free (t : gmap Z Tag.row) (tag_id : Z) (name : string) :
  (∀ j tj, t !! j = Some tj → Tag.name tj = name → j = tag_id) →
  name ∉ names (delete tag_id t).
Proof.
  intros Hfree (j & tj & [Hne Hj]%lookup_delete_Some & Hname)%elem_of_names.
  by destruct Hne; symmetry; apply (Hfree j tj).
Qed.

Lemma tags_edit_run int tag_id req s tag name ids :
  tags s !! tag_id = Some tag →
  form_lookup "name" (form req) = Some name →
  mapM int (getlist "posts" (form req)) = Some ids →
  refuses (Tag.text tag) [name] = false →
  (∀ j tj, tags s !! j = Some tj → Tag.name tj = name → j = tag_id) →
  serve (tags_edit int tag_id) req s
  = {| response := Redirect "/tags";
       flashed := ["Tag '" +:+ name +:+ "' edited."];
       store :=
         set_tags (λ t, <[tag_id := Tag.mk name]> t)
           (set_posts_tags (λ pts,
              filter (λ pt, pt.2 ≠ tag_id) pts
              ∪ list_to_set ((λ p : Z * Post.row, (p.1, tag_id)) <$>
                   map_to_list (filter (λ kv, kv.1 ∈ ids) (posts s)))) s) |}.
Proof.
  intros Htag Hname Hids Htakes Hfree.
  rewrite tags_edit_serve, Htag, Hname, Hids.
  change (Tag.text (Tag.mk name)) with [name]. rewrite Htakes.
  by rewrite decide_False by by apply names_free.
Qed.


Lemma flush_refused req sess i :
  refused (database sess) (pending sess) = false →
  i ∈ dirty sess → clashes (tags (pending sess)) i →
  flush req sess = (sess, Raise IntegrityError).
Proof.
  intros Hclean Hi Hclash. unfold flush. rewrite Hclean.
  case_decide as Hex; [done|]. destruct Hex. by exists i.
Qed.

Lemma tags_new_name_in_use int req s name i tag :
  form_lookup "name" (form req) = Some name →
  tags s !! i = Some tag → Tag.name tag = name →
  status_code (response (serve (tags_new int) req s)) = 500
  ∧ same_rows s (store (serve (tags_new int) req s))
  ∧ (is_Some (mapM int (getlist "posts" (form req))) → has_nul name = false →
     raised (tags_new int) req s = Some IntegrityError)
  ∧ (mapM int (getlist "posts" (form req)) = None →
     ∃ num, raised (tags_new int) req s = Some (ValueError num)).
Proof.
  intros Hname Hi Htag.
  assert (name ∈ names (tags s)) as Hin by (apply elem_of_names; eauto).
  split_and!.
  - rewrite tags_new_serve, Hname.
    destruct (mapM int _); [|done]. destruct (existsb has_nul _); [done|].
    destruct (tags s !! tags_id_seq s); [done|]. by rewrite decide_True.
  - rewrite tags_new_serve, Hname.
    destruct (mapM int _); [|done]. destruct (existsb has_nul _); [done|].
    destruct (tags s !! tags_id_seq s); [done|]. by rewrite decide_True.
  - intros [ids Hids] Hclean. apply takes_tag in Hclean. open_store s.
    unfold raised, tags_new. fold_ints int parse. use_lookups.
    destruct (ts !! tseq) as [taken|] eqn:Hfresh; run_view; [done|].
    rewrite (flush_refused _ _ tseq);
      [by run_view|quiet|by apply elem_of_union_l, elem_of_singleton|].
    apply clashes_iff. cbn [pending tags]. exists (Tag.mk name), i, tag.
    rewrite lookup_insert_eq.
    split_and!; [done| |by rewrite lookup_insert_ne by congruence|done].
    congruence.
  - intros Hids. open_store s. unfold raised, tags_new. fold_ints int parse.
    run_view. ints_fail Hids. by exists bad.
Qed.

Lemma tags_edit_name_in_use int tag_id req s tag name j tj :
  tags s !! tag_id = Some tag →
  form_lookup "name" (form req) = Some name →
  tags s !! j = Some tj → j ≠ tag_id → Tag.name tj = name →
  serve (tags_edit int tag_id) req s
  = {| response := ErrorPage 500; flashed := []; store := s |}
  ∧ (is_Some (mapM int (getlist "posts" (form req))) → has_nul name = false →
     raised (tags_edit int tag_id) req s = Some IntegrityError).
Proof.
  intros Htag Hname Hj Hne Heq.
  assert (name ∈ names (delete tag_id (tags s))) as Hin.
  { apply elem_of_names. exists j, tj. by rewrite lookup_delete_ne. }
  split.
  - rewrite tags_edit_serve, Htag, Hname.
    destruct (mapM int _); [|done]. destruct (refuses _ _); [done|].
    by rewrite decide_True.
  - intros [ids Hids] Hclean. open_store s.
    assert (refuses (Tag.text tag) (Tag.text (Tag.mk name)) = false) as Hnul.
    { by apply refuses_clean, takes_tag. }
    unfold raised, tags_edit. fold_ints int parse. use_lookups.
    rewrite (flush_refused _ _ tag_id);
      [by run_view| |by apply elem_of_union_l, elem_of_singleton|].
    + cbn [database pending]. sends_tag Htag Hnul.
    + apply clashes_iff. cbn [pending tags]. exists (Tag.mk name), j, tj.
      by rewrite lookup_alter_eq, Htag, lookup_alter_ne.
Qed.

(** ** The views on the demo store *)

Example decimal_reads :
  decimal <$> ["7"; "-12"; "+3"; ""; "x1"; "-"] = [Some 7; Some (-12); Some 3; None; None; None].
Proof. reflexivity. Qed.

Example root_on_demo :
  response (serve root (at_noon []) demo)
  = Page 200 "posts/homepage.html"
      [("posts", some_posts [(3, Post.mk "Machines" "Can they think" 300 2);
                             (2, Post.mk "Sketch" "Of the analyst" 200 1);
                             (1, Post.mk "Notes" "On the engine" 100 1)])].
Proof. reflexivity. Qed.

Example posts_update_on_demo :
  let r := serve (posts_update decimal 1)
             (at_noon [("title", "Notes"); ("content", "Revised");
                       ("tags", "2"); ("tags", "5"); ("tags", "9")]) demo in
  response r = Redirect "/users/1"
  ∧ flashed r = ["Post 'Notes' edited."]
  ∧ elements (tags_of (store r) 1) ≡ₚ [2; 5]
  ∧ posts (store r) !! 1 = Some (Post.mk "Notes" "Revised" 100 1).
Proof. vm_compute. split_and!; try reflexivity. by rewrite (Permutation_swap 5 2 []). Qed.

Example posts_update_bad_tag_rolls_back :
  serve (posts_update decimal 1)
    (at_noon [("title", "Lost"); ("content", "Lost too"); ("tags", "seven")]) demo
  = {| response := ErrorPage 500; flashed := []; store := demo |}.
Proof. reflexivity. Qed.

Example posts_update_without_content :
  serve (posts_update decimal 1) (at_noon [("title", "Lost")]) demo
  = {| response := ErrorPage 400; flashed := []; store := demo |}.
Proof. reflexivity. Qed.

Example users_destroy_on_demo :
  let r := serve (users_destroy 1) (at_noon []) demo in
  response r = Redirect "/users"
  ∧ flashed r = ["User Ada Lovelace deleted."]
  ∧ map_to_list (users (store r)) = [(2, User.mk "Alan" "Turing" "alan.png")]
  ∧ map_to_list (posts (store r)) = [(3, Post.mk "Machines" "Can they think" 300 2)]
  ∧ elements (posts_tags (store r)) = [(3, 5)]
  ∧ tags (store r) = tags demo.
Proof. vm_compute. split_and!; reflexivity. Qed.

Example tags_new_taken_name_draws_an_id :
  serve (tags_new decimal) (at_noon [("name", "math")]) demo
  = {| response := ErrorPage 500; flashed := [];
       store := set_tags_id_seq 9 demo |}.
Proof. reflexivity. Qed.

Example posts_new_with_nul_draws_no_id :
  serve (posts_new decimal 1)
    (at_noon [("title", with_nul "T"); ("content", "Body")]) demo
  = {| response := ErrorPage 500; flashed := []; store := demo |}.
Proof. reflexivity. Qed.

Example posts_update_with_nul_rolls_back :
  serve (posts_update decimal 1)
    (at_noon [("title", "Kept out"); ("content", with_nul "Lost"); ("tags", "5")])
    demo
  = {| response := ErrorPage 500; flashed := []; store := demo |}.
Proof. reflexivity. Qed.

Example tags_edit_with_nul_rolls_back :
  raised (tags_edit decimal 2) (at_noon [("name", with_nul "fun")]) demo
  = Some (ValueError nul_refused).
Proof. reflexivity. Qed.

(** ** Replacing the tags of a post *)

(** C1. On an existing post, [posts_update] with a title and a content
    the driver takes (no NUL character in them) answers with a redirect
    and leaves the post tagged with exactly the tags whose id is in the
    submitted list and in the store: ids without a tag are dropped
    without an error, whatever the post was tagged with before, and an
    empty list leaves the post without tags. *)
Theorem posts_update_replaces_tags int post_id req s post title content ids :
  posts s !! post_id = Some post →
  form_lookup "title" (form req) = Some title →
  form_lookup "content" (form req) = Some content →
  has_nul title = false → has_nul content = false →
  mapM int (getlist "tags" (form req)) = Some ids →
  let r := serve (posts_update int post_id) req s in
  status_code (response r) = 302
  ∧ (∀ t, t ∈ tags_of (store r) post_id ↔ t ∈ ids ∧ is_Some (tags s !! t))
  ∧ tags (store r) = tags s
  ∧ (ids = [] → tags_of (store r) post_id = ∅).
Proof.
  intros Hpost Htitle Hcontent Hclean1 Hclean2 Hids r. subst r.
  rewrite (posts_update_run _ _ _ _ _ _ _ _ Hpost Htitle Hcontent Hids)
    by by apply refuses_clean, (takes_post _ _ 0 0).
  cbn [response store status_code tags].
  assert (∀ t, t ∈ tags_of
     {| users := users s;
        posts := <[post_id := Post.mk title content (Post.created_at post)
                                      (Post.user_id post)]> (posts s);
        tags := tags s;
        posts_tags :=
          filter (λ pt, pt.1 ≠ post_id) (posts_tags s)
          ∪ list_to_set ((λ t : Z * Tag.row, (post_id, t.1)) <$>
               map_to_list (filter (λ kv, kv.1 ∈ ids) (tags s)));
        users_id_seq := users_id_seq s;
        posts_id_seq := posts_id_seq s;
        tags_id_seq := tags_id_seq s |} post_id
     ↔ t ∈ ids ∧ is_Some (tags s !! t)) as Hexact.
  { intros t. rewrite elem_of_tags_of. cbn [posts_tags].
    rewrite elem_of_assign_tags. intuition. }
  split_and!; [done|done|done|].
  intros ->. apply set_eq. intros t. rewrite Hexact, elem_of_nil, elem_of_empty. tauto.
Qed.

Lemma posts_update_replaces_tags_witness :
  let r := serve (posts_update decimal 1)
             (at_noon [("title", "Notes"); ("content", "Revised");
                       ("tags", "2"); ("tags", "5"); ("tags", "9")]) demo in
  status_code (response r) = 302
  ∧ (∀ t, t ∈ tags_of (store r) 1 ↔ t ∈ [2; 5; 9] ∧ is_Some (tags demo !! t))
  ∧ tags (store r) = tags demo
  ∧ ([2; 5; 9] = [] → tags_of (store r) 1 = ∅).
Proof.
  apply (posts_update_replaces_tags decimal 1 _ demo
           (Post.mk "Notes" "On the engine" 100 1) "Notes" "Revised" [2; 5; 9]);
    reflexivity.
Defined.

(** ** Deleting a user *)

(** C2. On an existing user, [users_destroy] removes the user and every
    post of that user; every tag stays, and the only rows gone from
    [posts_tags] are those of the deleted posts. *)
Theorem users_destroy_cascade user_id req s user :
  users s !! user_id = Some user →
  let r := serve (users_destroy user_id) req s in
  status_code (response r) = 302
  ∧ users (store r) = delete user_id (users s)
  ∧ (∀ p post, posts (store r) !! p = Some post
               ↔ posts s !! p = Some post ∧ Post.user_id post ≠ user_id)
  ∧ tags (store r) = tags s
  ∧ (∀ p t, (p, t) ∈ posts_tags (store r)
            ↔ (p, t) ∈ posts_tags s
              ∧ ¬ ∃ post, posts s !! p = Some post ∧ Post.user_id post = user_id).
Proof.
  intros Huser r. subst r. rewrite (users_destroy_run _ _ _ _ Huser).
  cbn [response store status_code set_users set_posts set_posts_tags
       users posts tags posts_tags].
  split_and!; [done|done| |done|].
  - intros p post. rewrite map_lookup_filter_Some. cbn [fst].
    rewrite elem_of_dom_posts_by. split.
    + intros [Hp Hnot]. split; [done|]. intros Huid. apply Hnot. eauto.
    + intros [Hp Hne]. split; [done|]. intros (post' & Hp' & Huid).
      rewrite Hp in Hp'. by injection Hp' as <-.
  - intros p t. rewrite elem_of_filter. cbn [fst].
    rewrite elem_of_dom_posts_by. tauto.
Qed.

Lemma users_destroy_cascade_witness :
  let r := serve (users_destroy 1) (at_noon []) demo in
  status_code (response r) = 302
  ∧ users (store r) = delete 1 (users demo)
  ∧ (∀ p post, posts (store r) !! p = Some post
               ↔ posts demo !! p = Some post ∧ Post.user_id post ≠ 1)
  ∧ tags (store r) = tags demo
  ∧ (∀ p t, (p, t) ∈ posts_tags (store r)
            ↔ (p, t) ∈ posts_tags demo
              ∧ ¬ ∃ post, posts demo !! p = Some post ∧ Post.user_id post = 1).
Proof.
  apply (users_destroy_cascade 1 (at_noon []) demo
           (User.mk "Ada" "Lovelace" "ada.png")).
  reflexivity.
Defined.

(** ** Deleting a tag *)

(** C9. On an existing tag, [tags_destroy] removes the tag and its rows
    in [posts_tags] and nothing else: users and posts are as before, and
    every post keeps its other tags. *)
Theorem tags_destroy_keeps_posts tag_id req s tag :
  tags s !! tag_id = Some tag →
  let r := serve (tags_destroy tag_id) req s in
  status_code (response r) = 302
  ∧ tags (store r) = delete tag_id (tags s)
  ∧ posts (store r) = posts s
  ∧ users (store r) = users s
  ∧ (∀ p t, (p, t) ∈ posts_tags (store r) ↔ (p, t) ∈ posts_tags s ∧ t ≠ tag_id)
  ∧ (∀ p, tags_of (store r) p = tags_of s p ∖ {[tag_id]}).
Proof.
  intros Htag r. subst r. rewrite (tags_destroy_run _ _ _ _ Htag).
  cbn [response store status_code set_tags set_posts_tags
       users posts tags posts_tags].
  assert (∀ p t, (p, t) ∈ filter (λ pt : Z * Z, pt.2 ≠ tag_id) (posts_tags s)
                 ↔ (p, t) ∈ posts_tags s ∧ t ≠ tag_id) as Hrows.
  { intros p t. rewrite elem_of_filter. cbn [snd]. tauto. }
  split_and!; [done|done|done|done|done|].
  intros p. apply set_eq. intros t.
  rewrite elem_of_difference, !elem_of_tags_of. cbn [posts_tags].
  rewrite Hrows, elem_of_singleton. tauto.
Qed.

Lemma tags_destroy_keeps_posts_witness :
  let r := serve (tags_destroy 7) (at_noon []) demo in
  status_code (response r) = 302
  ∧ tags (store r) = delete 7 (tags demo)
  ∧ posts (store r) = posts demo
  ∧ users (store r) = users demo
  ∧ (∀ p t, (p, t) ∈ posts_tags (store r) ↔ (p, t) ∈ posts_tags demo ∧ t ≠ 7)
  ∧ (∀ p, tags_of (store r) p = tags_of demo p ∖ {[7]}).
Proof.
  apply (tags_destroy_keeps_posts 7 (at_noon []) demo (Tag.mk "logic")).
  reflexivity.
Defined.

(** ** Creating and editing a user *)

(** C6. [users_new] with a first name, a last name and an empty
    [image_url] field creates the user with [DEFAULT_IMAGE_URL] as its
    image: the only row the request can add to [users] is that one; and
    when the driver takes the two names (no NUL character in them) the
    request does add it, under the next id of the sequence, in every
    store whose sequence is ahead of its ids, as it is in every store the
    application reaches. *)
Theorem users_new_default_image int req s first_name last_name :
  form_lookup "first_name" (form req) = Some first_name →
  form_lookup "last_name" (form req) = Some last_name →
  form_lookup "image_url" (form req) = Some "" →
  let r := serve users_new req s in
  let created := User.mk first_name last_name DEFAULT_IMAGE_URL in
  (∀ id u, users (store r) !! id = Some u →
           users s !! id = Some u ∨ id = users_id_seq s ∧ u = created)
  ∧ (has_nul first_name = false → has_nul last_name = false →
     users s !! users_id_seq s = None →
     status_code (response r) = 302
     ∧ users (store r) = <[users_id_seq s := created]> (users s))
  ∧ (has_nul first_name = false → has_nul last_name = false →
     reachable int s →
     status_code (response r) = 302
     ∧ users (store r) !! users_id_seq s = Some created).
Proof.
  intros Hfirst Hlast Himage r created. subst r created.
  assert (has_nul first_name = false → has_nul last_name = false →
          users s !! users_id_seq s = None →
          serve users_new req s
          = {| response := Redirect "/users";
               flashed := ["User " +:+ User.full_name
                             (User.mk first_name last_name DEFAULT_IMAGE_URL)
                           +:+ " added."];
               store := set_users_id_seq (users_id_seq s + 1)
                          (set_users (λ t, <[users_id_seq s :=
                             User.mk first_name last_name DEFAULT_IMAGE_URL]> t) s) |})
    as Hrun.
  { intros Hclean1 Hclean2 Hfresh.
    rewrite (users_new_run _ _ _ _ _ Hfirst Hlast Himage) by done.
    cbv zeta. by rewrite decide_True. }
  split_and!.
  - intros id u. rewrite users_new_serve, Hfirst, Hlast, Himage. cbv zeta.
    rewrite decide_True by done.
    destruct (existsb has_nul _); [by left|].
    destruct (users s !! users_id_seq s) as [taken|] eqn:Hseq; [by left|].
    cbn [store set_users set_users_id_seq users].
    intros [[<- <-]|[_ Hu]]%lookup_insert_Some; [by right|by left].
  - intros Hclean1 Hclean2 Hfresh. rewrite (Hrun Hclean1 Hclean2 Hfresh).
    by cbn [response store status_code set_users set_users_id_seq users].
  - intros Hclean1 Hclean2 Hs.
    destruct (reachable_fresh_ids int s Hs) as [Hfresh _].
    rewrite (Hrun Hclean1 Hclean2 Hfresh).
    cbn [response store status_code set_users set_users_id_seq users].
    by rewrite lookup_insert_eq.
Qed.

Lemma users_new_default_image_witness :
  let r := serve users_new
             (at_noon [("first_name", "Grace"); ("last_name", "Hopper");
                       ("image_url", "")]) demo in
  status_code (response r) = 302
  ∧ users (store r) = <[3 := User.mk "Grace" "Hopper" DEFAULT_IMAGE_URL]> (users demo).
Proof.
  apply (users_new_default_image decimal
           (at_noon [("first_name", "Grace"); ("last_name", "Hopper");
                     ("image_url", "")]) demo "Grace" "Hopper"); reflexivity.
Defined.

(** C8. An empty [image_url] field is read differently by the two views,
    on a request with names the driver takes (no NUL character in them):
    [users_new] stores the default image, [users_update] stores the empty
    string, which is not the default. *)
Theorem empty_image_url_asymmetry :
  (∀ req s first_name last_name,
     form_lookup "first_name" (form req) = Some first_name →
     form_lookup "last_name" (form req) = Some last_name →
     form_lookup "image_url" (form req) = Some "" →
     has_nul first_name = false → has_nul last_name = false →
     users s !! users_id_seq s = None →
     users (store (serve users_new req s)) !! users_id_seq s
     = Some (User.mk first_name last_name DEFAULT_IMAGE_URL))
  ∧ (∀ user_id req s user first_name last_name,
       users s !! user_id = Some user →
       form_lookup "first_name" (form req) = Some first_name →
       form_lookup "last_name" (form req) = Some last_name →
       form_lookup "image_url" (form req) = Some "" →
       has_nul first_name = false → has_nul last_name = false →
       users (store (serve (users_update user_id) req s)) !! user_id
       = Some (User.mk first_name last_name ""))
  ∧ DEFAULT_IMAGE_URL ≠ "".
Proof.
  split_and!.
  - intros req s first_name last_name Hfirst Hlast Himage Hclean1 Hclean2 Hfresh.
    rewrite (users_new_run _ _ _ _ _ Hfirst Hlast Himage) by done.
    cbn [store set_users set_users_id_seq users].
    rewrite decide_True by done. apply lookup_insert_eq.
  - intros user_id req s user first_name last_name Huser Hfirst Hlast Himage
      Hclean1 Hclean2.
    rewrite (users_update_run _ _ _ _ _ _ _ Huser Hfirst Hlast Himage)
      by by apply refuses_clean, takes_user.
    cbn [store set_users users]. apply lookup_insert_eq.
  - discriminate.
Qed.

Lemma empty_image_url_asymmetry_witness :
  users (store (serve users_new
                  (at_noon [("first_name", "Grace"); ("last_name", "Hopper");
                            ("image_url", "")]) demo)) !! 3
  = Some (User.mk "Grace" "Hopper" DEFAULT_IMAGE_URL)
  ∧ users (store (serve (users_update 2)
                    (at_noon [("first_name", "Alan"); ("last_name", "Turing");
                              ("image_url", "")]) demo)) !! 2
    = Some (User.mk "Alan" "Turing" "").
Proof.
  destruct empty_image_url_asymmetry as (Hnew & Hupdate & _). split.
  - apply (Hnew (at_noon [("first_name", "Grace"); ("last_name", "Hopper");
                          ("image_url", "")]) demo "Grace" "Hopper"); reflexivity.
  - apply (Hupdate 2 (at_noon [("first_name", "Alan"); ("last_name", "Turing");
                               ("image_url", "")]) demo
             (User.mk "Alan" "Turing" "alan.png") "Alan" "Turing"); reflexivity.
Defined.

(** ** Looking up an id that is not there *)

(** C4. Every route that takes an id answers a request for an id that is
    not in the store with the 404 page, whatever the form holds, and
    leaves the store as it was. *)
Theorem missing_entity_404 int e req s :
  missing e s →
  let r := serve (view_function int e) req s in
  response r = page_not_found
  ∧ status_code (response r) = 404
  ∧ raised (view_function int e) req s = Some NotFound
  ∧ store r = s.
Proof.
  intros Hmiss r. subst r. open_store s.
  destruct e; cbn [missing users posts tags] in Hmiss; try done;
    unfold raised, view_function, users_show, users_edit, users_update,
      users_destroy, posts_new_form, posts_new, posts_show, posts_edit,
      posts_update, posts_destroy, tags_show, tags_edit_form, tags_edit,
      tags_destroy;
    run_view; rewrite Hmiss; run_view; done.
Qed.

Lemma missing_entity_404_witness :
  let r := serve (view_function decimal (GET_users_show 9999)) (at_noon []) demo in
  response r = page_not_found
  ∧ status_code (response r) = 404
  ∧ raised (view_function decimal (GET_users_show 9999)) (at_noon []) demo
    = Some NotFound
  ∧ store r = demo.
Proof.
  apply (missing_entity_404 decimal (GET_users_show 9999) (at_noon []) demo).
  reflexivity.
Defined.

(** ** Edits replace every field *)



(** ** The homepage *)

(** C10. The homepage shows the five most recent posts of the store, or
    all of them when there are fewer: at most five posts of the store, each
    once, the most recent first, and no post left out is more recent than
    a post shown.  The store is as before. *)
Theorem root_recent_posts req s :
  ∃ shown,
    response (serve root req s)
    = Page 200 "posts/homepage.html" [("posts", some_posts shown)]
    ∧ store (serve root req s) = s
    ∧ length shown = Nat.min 5 (size (posts s))
    ∧ (length shown ≤ 5)%nat
    ∧ NoDup shown
    ∧ (∀ i p, (i, p) ∈ shown → posts s !! i = Some p)
    ∧ StronglySorted
        (λ p q : Z * Post.row, Post.created_at q.2 ≤ Post.created_at p.2) shown
    ∧ (∀ i p j q,
         (i, p) ∈ shown → posts s !! j = Some q → (j, q) ∉ shown →
         Post.created_at q ≤ Post.created_at p).
Proof.
  rewrite root_run. cbn [response store].
  set (sorted := order_by_created_at_desc (map_to_list (posts s))).
  pose proof (order_by_created_at_desc_perm (map_to_list (posts s))) as Hperm.
  pose proof (order_by_created_at_desc_sorted (map_to_list (posts s))) as Hsorted.
  fold sorted in Hperm, Hsorted.
  assert (NoDup sorted) as Hnodup.
  { rewrite Hperm. apply NoDup_map_to_list. }
  exists (take 5 sorted). split_and!; try done.
  - by rewrite length_take, Hperm, length_map_to_list.
  - rewrite length_take. lia.
  - apply (sublist_NoDup _ _ Hnodup), sublist_take.
  - intros i p Hin. apply subseteq_take in Hin. rewrite Hperm in Hin.
    by apply elem_of_map_to_list in Hin.
  - rewrite <- (take_drop 5 sorted) in Hsorted.
    by apply StronglySorted_app_1_l in Hsorted.
  - intros i p j q Hin Hq Hout.
    assert ((j, q) ∈ sorted) as Hjq.
    { rewrite Hperm. by apply elem_of_map_to_list. }
    rewrite <- (take_drop 5 sorted) in Hjq, Hsorted.
    apply elem_of_app in Hjq as [Hjq|Hjq]; [done|].
    apply (StronglySorted_app_1_elem_of later _ _ (i, p) (j, q) Hsorted Hin Hjq).
Qed.

Lemma root_recent_posts_witness :
  ∃ shown,
    response (serve root (at_noon []) demo)
    = Page 200 "posts/homepage.html" [("posts", some_posts shown)]
    ∧ store (serve root (at_noon []) demo) = demo
    ∧ length shown = Nat.min 5 (size (posts demo))
    ∧ (length shown ≤ 5)%nat
    ∧ NoDup shown
    ∧ (∀ i p, (i, p) ∈ shown → posts demo !! i = Some p)
    ∧ StronglySorted
        (λ p q : Z * Post.row, Post.created_at q.2 ≤ Post.created_at p.2) shown
    ∧ (∀ i p j q,
         (i, p) ∈ shown → posts demo !! j = Some q → (j, q) ∉ shown →
         Post.created_at q ≤ Post.created_at p).
Proof. apply (root_recent_posts (at_noon []) demo). Defined.

(** ** One transaction for a post edit *)

Lemma bind_assoc_run {A B C} (m : View A) (f : A → View B) (g : B → View C)
    req sess :
  ((m ≫= f) ≫= g) req sess = (m ≫= λ a, f a ≫= g) req sess.
Proof. rewrite !bind_run. by destruct (m req sess) as [sess' [a|e]]. Qed.

Lemma bind_ext_run {A B} (m : View A) (f g : A → View B) req sess :
  (∀ a sess', f a req sess' = g a req sess') →
  (m ≫= f) req sess = (m ≫= g) req sess.
Proof.
  intros Hfg. rewrite !bind_run. by destruct (m req sess) as [sess' [a|e]].
Qed.

(** The view is its writes, then one commit. *)
Lemma posts_update_split int post_id req sess :
  posts_update int post_id req sess
  = (w ← posts_update_writes int post_id;
     commit;;
     flash ("Post '" +:+ w.2 +:+ "' edited.");;
     redirect ("/users/" +:+ pretty (Post.user_id w.1))) req sess.
Proof.
  unfold posts_update, posts_update_writes.
  repeat (rewrite bind_assoc_run; apply bind_ext_run; intros ? ?).
  reflexivity.
Qed.

(** Views that leave the committed store alone. *)
Lemma keeps_database_modify db (f : Store → Store) :
  preserves (λ sess, database sess = db) (modify_pending f).
Proof. by intros req sess Hdb. Qed.

Lemma keeps_database_flush db : preserves (λ sess, database sess = db) flush.
Proof.
  intros req sess Hdb. unfold flush.
  destruct (refused _ _); [done|]. by case_decide.
Qed.

Lemma keeps_database_get_or_404 {R} db (table : Store → gmap Z R) id :
  preserves (λ sess, database sess = db) (get_or_404 table id).
Proof.
  intros req sess Hdb. unfold get_or_404. run_view. by destruct (table _ !! id).
Qed.

Lemma keeps_database_request_form db key :
  preserves (λ sess, database sess = db) (request_form key).
Proof.
  intros req sess Hdb. unfold request_form.
  by destruct (form_lookup key (form req)).
Qed.

Lemma posts_update_writes_pending int post_id req sess :
  database (posts_update_writes int post_id req sess).1 = database sess.
Proof.
  assert (preserves (λ sess', database sess' = database sess)
            (posts_update_writes int post_id)) as Hkeeps; [|by apply Hkeeps].
  unfold posts_update_writes, setattr_post, query_id_in, assign_tags.
  repeat first
    [ apply keeps_database_get_or_404
    | apply keeps_database_request_form
    | apply keeps_database_modify
    | apply keeps_database_flush
    | apply preserves_mapM_to_int
    | apply preserves_bind; [|intros ?]
    | apply preserves_ret
    | by intros ? ? ? ].
Qed.

(** A commit publishes the whole transaction or nothing. *)
Lemma commit_atomic req sess :
  match commit req sess with
  | (sess', Return _) => database sess' = pending sess ∧ pending sess' = pending sess
  | (sess', Raise _) => database sess' = database sess
  end.
Proof.
  unfold commit. rewrite bind_run. unfold flush, publish.
  destruct (refused _ _); [done|]. by case_decide.
Qed.

(** C3. [posts_update] writes the title, the content and the tags of the
    post in one transaction.  The view is its writes followed by one
    commit; the writes stay in the transaction, and the commit publishes
    all of it or nothing.  So a request for which the post is there, the
    form has the title and the content, the ids are numbers and the
    driver takes the new text is answered with a redirect and has both
    the new columns and the new tags in the store; and every other
    request is refused and leaves the store as it was, also when the flush
    fails on one column after the other was assigned. *)
Theorem posts_update_one_transaction int post_id req s :
  let r := serve (posts_update int post_id) req s in
  (∀ sess,
     posts_update int post_id req sess
     = (w ← posts_update_writes int post_id;
        commit;;
        flash ("Post '" +:+ w.2 +:+ "' edited.");;
        redirect ("/users/" +:+ pretty (Post.user_id w.1))) req sess
     ∧ database (posts_update_writes int post_id req sess).1 = database sess
     ∧ match commit req sess with
       | (sess', Return _) =>
           database sess' = pending sess ∧ pending sess' = pending sess
       | (sess', Raise _) => database sess' = database sess
       end)
  ∧ (∀ post title content ids,
       posts s !! post_id = Some post →
       form_lookup "title" (form req) = Some title →
       form_lookup "content" (form req) = Some content →
       mapM int (getlist "tags" (form req)) = Some ids →
       (refuses (Post.text post) [title; content] = false →
        status_code (response r) = 302
        ∧ posts (store r) !! post_id
          = Some (Post.mk title content (Post.created_at post) (Post.user_id post))
        ∧ ∀ t, t ∈ tags_of (store r) post_id ↔ t ∈ ids ∧ is_Some (tags s !! t))
       ∧ (refuses (Post.text post) [title; content] = true →
          status_code (response r) = 500 ∧ store r = s))
  ∧ (status_code (response r) = 302 →
     ∃ post title content ids,
       posts s !! post_id = Some post
       ∧ form_lookup "title" (form req) = Some title
       ∧ form_lookup "content" (form req) = Some content
       ∧ mapM int (getlist "tags" (form req)) = Some ids
       ∧ refuses (Post.text post) [title; content] = false)
  ∧ (status_code (response r) ≠ 302 → store r = s).
Proof.
  intros r. subst r. split_and!.
  - intros sess. split_and!.
    + apply posts_update_split.
    + apply posts_update_writes_pending.
    + apply commit_atomic.
  - intros post title content ids Hpost Htitle Hcontent Hids. split.
    + intros Htakes.
      rewrite (posts_update_run _ _ _ _ _ _ _ _ Hpost Htitle Hcontent Hids Htakes).
      cbn [response store status_code posts]. split_and!; [done| |].
      * apply lookup_insert_eq.
      * intros t. rewrite elem_of_tags_of. cbn [posts_tags].
        rewrite elem_of_assign_tags. intuition.
    + intros Hnul. rewrite posts_update_serve, Hpost, Htitle, Hcontent, Hids.
      cbv zeta.
      change (Post.text (Post.mk title content (Post.created_at post)
                (Post.user_id post))) with [title; content].
      by rewrite Hnul.
  - rewrite posts_update_serve.
    destruct (posts s !! post_id) as [post|]; [|done].
    destruct (form_lookup "title" (form req)) as [title|]; [|done].
    destruct (form_lookup "content" (form req)) as [content|]; [|done].
    destruct (mapM int (getlist "tags" (form req))) as [ids|]; [|done].
    cbv zeta.
    change (Post.text (Post.mk title content (Post.created_at post)
              (Post.user_id post))) with [title; content].
    destruct (refuses _ _) eqn:Htakes; [done|]. intros _.
    by exists post, title, content, ids.
  - rewrite posts_update_serve.
    destruct (posts s !! post_id) as [post|]; [|done].
    destruct (form_lookup "title" (form req)) as [title|]; [|done].
    destruct (form_lookup "content" (form req)) as [content|]; [|done].
    destruct (mapM int (getlist "tags" (form req))) as [ids|]; [|done].
    cbv zeta. by destruct (refuses _ _).
Qed.

Lemma posts_update_one_transaction_witness :
  (let r := serve (posts_update decimal 1)
              (at_noon [("title", "Notes"); ("content", "Revised");
                        ("tags", "2"); ("tags", "5"); ("tags", "9")]) demo in
   status_code (response r) = 302
   ∧ posts (store r) !! 1 = Some (Post.mk "Notes" "Revised" 100 1)
   ∧ ∀ t, t ∈ tags_of (store r) 1 ↔ t ∈ [2; 5; 9] ∧ is_Some (tags demo !! t))
  ∧ (let r := serve (posts_update decimal 1)
                (at_noon [("title", "Kept out"); ("content", with_nul "Lost");
                          ("tags", "5")]) demo in
     status_code (response r) = 500 ∧ store r = demo)
  ∧ (let r := serve (posts_update decimal 1)
                (at_noon [("title", "Lost"); ("content", "Lost too");
                          ("tags", "seven")]) demo in
     store r = demo).
Proof.
  split_and!.
  - destruct (posts_update_one_transaction decimal 1
                (at_noon [("title", "Notes"); ("content", "Revised");
                          ("tags", "2"); ("tags", "5"); ("tags", "9")]) demo)
      as (_ & Hrequest & _).
    apply (Hrequest (Post.mk "Notes" "On the engine" 100 1) "Notes" "Revised"
             [2; 5; 9]); reflexivity.
  - destruct (posts_update_one_transaction decimal 1
                (at_noon [("title", "Kept out"); ("content", with_nul "Lost");
                          ("tags", "5")]) demo)
      as (_ & Hrequest & _).
    apply (Hrequest (Post.mk "Notes" "On the engine" 100 1) "Kept out"
             (with_nul "Lost") [5]); reflexivity.
  - destruct (posts_update_one_transaction decimal 1
                (at_noon [("title", "Lost"); ("content", "Lost too");
                          ("tags", "seven")]) demo)
      as (_ & _ & _ & Hnothing).
    apply Hnothing. discriminate.
Defined.

(** ** Tag names are unique *)

(** C5. [tags_new] with the name of a tag of the store fails and adds no
    tag: the answer is a server error and every table has the rows it had.
    The error is the integrity error of the refused insert when the post
    ids of the form are numbers (and the name, as stored text is, is
    without a NUL character); when one is not, it is the [ValueError] of
    [int], raised before the insert.  No store the application reaches has
    two tags with one name. *)
Theorem tags_new_duplicate_name int :
  (∀ req s name i tag,
     form_lookup "name" (form req) = Some name →
     tags s !! i = Some tag → Tag.name tag = name →
     let r := serve (tags_new int) req s in
     status_code (response r) = 500
     ∧ same_rows s (store r)
     ∧ (is_Some (mapM int (getlist "posts" (form req))) →
        has_nul name = false →
        raised (tags_new int) req s = Some IntegrityError)
     ∧ (mapM int (getlist "posts" (form req)) = None →
        ∃ num, raised (tags_new int) req s = Some (ValueError num)))
  ∧ (∀ s, reachable int s →
       ∀ i j ti tj,
         tags s !! i = Some ti → tags s !! j = Some tj →
         Tag.name ti = Tag.name tj → i = j).
Proof.
  split.
  - intros req s name i tag Hname Hi Htag r. subst r.
    by apply (tags_new_name_in_use int req s name i tag).
  - intros s Hs. by apply (reachable_unique_names int).
Qed.

Lemma tags_new_duplicate_name_witness :
  (status_code (response (serve (tags_new decimal)
                            (at_noon [("name", "math"); ("posts", "1")]) demo)) = 500
   ∧ same_rows demo (store (serve (tags_new decimal)
                              (at_noon [("name", "math"); ("posts", "1")]) demo))
   ∧ raised (tags_new decimal) (at_noon [("name", "math"); ("posts", "1")]) demo
     = Some IntegrityError)
  ∧ (let two_tags :=
       store (serve (view_function decimal POST_tags_new)
                (at_noon [("name", "logic")])
                (store (serve (view_function decimal POST_tags_new)
                          (at_noon [("name", "math")]) create_all))) in
     size (tags two_tags) = 2%nat
     ∧ ∀ i j ti tj,
         tags two_tags !! i = Some ti → tags two_tags !! j = Some tj →
         Tag.name ti = Tag.name tj → i = j).
Proof.
  destruct (tags_new_duplicate_name decimal) as [Hrefused Hunique]. split.
  - destruct (Hrefused (at_noon [("name", "math"); ("posts", "1")]) demo
                "math" 5 (Tag.mk "math")) as (Hstatus & Hrows & Herror & _);
      [reflexivity..|].
    split_and!; [done|done|]. apply Herror; [by eexists|reflexivity].
  - split; [reflexivity|].
    apply Hunique. do 2 apply reachable_step. apply reachable_init.
Defined.

(** C5, counterexample.  A name in use does not by itself make the error
    a uniqueness violation: on the demo store, whose tag 5 is named math,
    the request name=math with the post id x fails on [int], before the
    insert, with [ValueError]. *)
Lemma tags_new_duplicate_name_counterexample :
  tags demo !! 5 = Some (Tag.mk "math")
  ∧ form_lookup "name" (form (at_noon [("name", "math"); ("posts", "x")]))
    = Some "math"
  ∧ raised (tags_new decimal) (at_noon [("name", "math"); ("posts", "x")]) demo
    = Some (ValueError "x")
  ∧ raised (tags_new decimal) (at_noon [("name", "math"); ("posts", "x")]) demo
    ≠ Some IntegrityError.
Proof. split_and!; [reflexivity..|]. intros Heq. vm_compute in Heq. discriminate Heq. Qed.

(** * Further properties *)

(** ** The reading views *)

Lemma reads_serve int e req s :
  reads e →
  ∃ resp,
    serve (view_function int e) req s = answer resp s
    ∧ (missing e s ∧ resp = page_not_found
       ∨ ¬ missing e s ∧ status_code resp = 200).
Proof.
  intros Hreads. open_store s. destruct e; try done;
    cbn [view_function missing users posts tags];
    unfold root, users_show, users_edit, posts_new_form, posts_show, posts_edit,
      tags_show, tags_edit_form, answer; run_view;
    try match goal with
        | |- context [?m !! ?k] => destruct (m !! k) eqn:Hlookup
        end;
    run_view; eexists; (split; [reflexivity|]);
    first [left; split; [done|done] | right; split; [by intros ?|done]].
Qed.

(** ** The foreign keys *)

Lemma consistent_same_rows s s' : same_rows s s' → consistent s → consistent s'.
Proof. intros (Hu & Hp & Ht & Hpt) Hs. unfold consistent. by rewrite Hu, Hp, Hpt, Ht. Qed.

Lemma same_rows_refl s : same_rows s s.
Proof. done. Qed.

Lemma same_rows_set_users_id_seq n s : same_rows s (set_users_id_seq n s).
Proof. done. Qed.

Lemma same_rows_set_posts_id_seq n s : same_rows s (set_posts_id_seq n s).
Proof. done. Qed.

Lemma same_rows_set_tags_id_seq n s : same_rows s (set_tags_id_seq n s).
Proof. done. Qed.

Lemma consistent_users_new s id user :
  consistent s →
  consistent (set_users_id_seq (id + 1) (set_users (λ t, <[id := user]> t) s)).
Proof.
  intros [Hposts Hrows]. split; cbn [set_users_id_seq set_users users posts posts_tags tags].
  - intros p post Hp. apply lookup_insert_is_Some'. right. by eapply Hposts.
  - done.
Qed.

Lemma consistent_users_update s id user :
  consistent s → consistent (set_users (λ t, <[id := user]> t) s).
Proof.
  intros [Hposts Hrows]. split; cbn [set_users users posts posts_tags tags].
  - intros p post Hp. apply lookup_insert_is_Some'. right. by eapply Hposts.
  - done.
Qed.

Lemma consistent_users_destroy s id :
  consistent s →
  consistent
    (set_users (λ t, delete id t)
       (set_posts (λ t, filter (λ kv, kv.1 ∉ dom (posts_by s id)) t)
          (set_posts_tags (λ pts, filter (λ pt, pt.1 ∉ dom (posts_by s id)) pts) s))).
Proof.
  intros [Hposts Hrows].
  split; cbn [set_users set_posts set_posts_tags users posts posts_tags tags].
  - intros p post [Hp Hout]%map_lookup_filter_Some. cbn [fst] in Hout.
    apply lookup_delete_is_Some. split; [|by eapply Hposts].
    intros Heq. apply Hout, elem_of_dom_posts_by. by exists post.
  - intros p t [Hout Hin]%elem_of_filter. cbn [fst] in Hout.
    destruct (Hrows p t Hin) as [[post Hp] Ht]. split; [|done].
    exists post. by apply map_lookup_filter_Some.
Qed.

Lemma consistent_posts_write s id post (ids : list Z) :
  consistent s →
  is_Some (users s !! Post.user_id post) →
  consistent
    (set_posts (λ t, <[id := post]> t)
       (set_posts_tags (λ pts,
          filter (λ pt, pt.1 ≠ id) pts
          ∪ list_to_set ((λ t : Z * Tag.row, (id, t.1)) <$>
               map_to_list (filter (λ kv, kv.1 ∈ ids) (tags s)))) s)).
Proof.
  intros [Hposts Hrows] Huser.
  split; cbn [set_posts set_posts_tags users posts posts_tags tags].
  - intros p post' [[<- <-]|[_ Hp]]%lookup_insert_Some; [done|by eapply Hposts].
  - intros p t [[Hne Hin]|(-> & Hi & Ht)]%elem_of_assign_tags.
    + destruct (Hrows p t Hin) as [Hp Ht]. split; [|done].
      apply lookup_insert_is_Some'. by right.
    + split; [|done]. apply lookup_insert_is_Some'. by left.
Qed.

Lemma consistent_posts_destroy s id :
  consistent s →
  consistent
    (set_posts (λ t, delete id t)
       (set_posts_tags (λ pts, filter (λ pt, pt.1 ≠ id) pts) s)).
Proof.
  intros [Hposts Hrows].
  split; cbn [set_posts set_posts_tags users posts posts_tags tags].
  - intros p post [_ Hp]%lookup_delete_Some. by eapply Hposts.
  - intros p t [Hne Hin]%elem_of_filter. cbn [fst] in Hne.
    destruct (Hrows p t Hin) as [Hp Ht]. split; [|done].
    apply lookup_delete_is_Some. split; [congruence|done].
Qed.

Lemma consistent_tags_write s id tag (ids : list Z) :
  consistent s →
  consistent
    (set_tags (λ t, <[id := tag]> t)
       (set_posts_tags (λ pts,
          filter (λ pt, pt.2 ≠ id) pts
          ∪ list_to_set ((λ p : Z * Post.row, (p.1, id)) <$>
               map_to_list (filter (λ kv, kv.1 ∈ ids) (posts s)))) s)).
Proof.
  intros [Hposts Hrows].
  split; cbn [set_tags set_posts_tags users posts posts_tags tags].
  - done.
  - intros p t [[Hne Hin]|(-> & Hi & Hp)]%elem_of_assign_posts.
    + destruct (Hrows p t Hin) as [Hp Ht]. split; [done|].
      apply lookup_insert_is_Some'. by right.
    + split; [done|]. apply lookup_insert_is_Some'. by left.
Qed.

Lemma consistent_tags_destroy s id :
  consistent s →
  consistent
    (set_tags (λ t, delete id t)
       (set_posts_tags (λ pts, filter (λ pt, pt.2 ≠ id) pts) s)).
Proof.
  intros [Hposts Hrows].
  split; cbn [set_tags set_posts_tags users posts posts_tags tags].
  - done.
  - intros p t [Hne Hin]%elem_of_filter. cbn [snd] in Hne.
    destruct (Hrows p t Hin) as [Hp Ht]. split; [done|].
    apply lookup_delete_is_Some. split; [congruence|done].
Qed.

Lemma consistent_set_seq s :
  consistent s →
  (∀ n, consistent (set_users_id_seq n s))
  ∧ (∀ n, consistent (set_posts_id_seq n s))
  ∧ (∀ n, consistent (set_tags_id_seq n s)).
Proof. done. Qed.

Lemma serve_consistent int e req s :
  consistent s → consistent (store (serve (view_function int e) req s)).
Proof.
  intros Hs. destruct (consistent_set_seq s Hs) as (Hseq1 & Hseq2 & Hseq3).
  destruct e;
    try (match goal with
         | |- context [view_function int ?e] =>
             destruct (reads_serve int e req s I) as (resp & -> & _)
         end; done);
    cbn [view_function].
  - rewrite users_new_serve. cbv zeta. repeat case_match; cbn [store answer]; try done;
      by apply consistent_users_new.
  - rewrite users_update_serve. cbv zeta. repeat case_match; cbn [store answer]; try done;
      by apply consistent_users_update.
  - rewrite users_destroy_serve. cbv zeta. repeat case_match; cbn [store answer]; try done;
      by apply consistent_users_destroy.
  - rewrite posts_new_serve. cbv zeta. repeat case_match; cbn [store answer]; try done;
      apply (consistent_set_seq _); by apply consistent_posts_write.
  - rewrite posts_update_serve. cbv zeta. repeat case_match; cbn [store answer]; try done;
      (apply consistent_posts_write; [done|]); cbn [Post.user_id];
      destruct Hs as [Hposts _]; by eapply Hposts.
  - rewrite posts_destroy_serve. cbv zeta. repeat case_match; cbn [store answer]; try done;
      by apply consistent_posts_destroy.
  - rewrite tags_new_serve. cbv zeta. repeat case_match; cbn [store answer]; try done;
      apply (consistent_set_seq _); by apply consistent_tags_write.
  - rewrite tags_edit_serve. cbv zeta. repeat case_match; cbn [store answer]; try done;
      by apply consistent_tags_write.
  - rewrite tags_destroy_serve. cbv zeta. repeat case_match; cbn [store answer]; try done;
      by apply consistent_tags_destroy.
Qed.

Lemma reachable_consistent int s : reachable int s → consistent s.
Proof.
  induction 1 as [|s e req _ IH]; [|by apply serve_consistent].
  split; cbn [create_all posts posts_tags].
  - intros p post Hp. by rewrite lookup_empty in Hp.
  - intros p t Hin. by apply elem_of_empty in Hin.
Qed.

(** ** What a request can do *)

Ltac write_cases :=
  first [ rewrite users_new_serve | rewrite users_update_serve
        | rewrite users_destroy_serve | rewrite posts_new_serve
        | rewrite posts_update_serve | rewrite posts_destroy_serve
        | rewrite tags_new_serve | rewrite tags_edit_serve
        | rewrite tags_destroy_serve ];
  cbv zeta; repeat case_match;
  cbn [answer response flashed store status_code page_not_found length].

(** X1. A request ends in one of three ways.  A reading route that finds
    its entity answers 200, flashes nothing and leaves the store as it
    was.  A writing route that goes through answers with a redirect and
    flashes one message.  Every other request is answered 400, 404 or 500
    without a flash, and every table has the rows it had: what the view
    wrote before it failed is rolled back.  No request moves a sequence
    back. *)
Theorem every_request_outcome int e req s :
  let r := serve (view_function int e) req s in
  ((reads e ∧ status_code (response r) = 200 ∧ flashed r = [] ∧ store r = s)
   ∨ (¬ reads e ∧ status_code (response r) = 302 ∧ length (flashed r) = 1%nat)
   ∨ ((status_code (response r) = 400 ∨ status_code (response r) = 404
       ∨ status_code (response r) = 500)
      ∧ flashed r = [] ∧ same_rows s (store r)))
  ∧ users_id_seq s ≤ users_id_seq (store r)
  ∧ posts_id_seq s ≤ posts_id_seq (store r)
  ∧ tags_id_seq s ≤ tags_id_seq (store r).
Proof.
  intros r. subst r. destruct e.
  all: try (match goal with
            | |- context [serve (view_function ?i ?e) ?q ?d] =>
                destruct (reads_serve i e q d I) as (resp & -> & [[_ ->]|[_ Hok]])
            end;
            cbn [answer response flashed store status_code page_not_found];
            (split; [|lia]);
            first [left; by split_and!|right; right; split_and!; [by eauto|done|done]]).
  all: cbn [view_function reads]; write_cases.
  all: split;
    [|destruct s; cbn [set_users_id_seq set_posts_id_seq set_tags_id_seq
                         set_users set_posts set_tags set_posts_tags
                         users_id_seq posts_id_seq tags_id_seq]; lia].
  all: first [ right; left; split_and!; [by intros ?|done|done]
             | right; right; split_and!; [by eauto|done|done] ].
Qed.

(** X2. The 404 page is the answer to a missing entity and to nothing
    else: a route answers 404 exactly when the id it looks up is not in
    the store.  Ids of tags or posts in the form that match no row never
    give a 404. *)
Theorem not_found_iff_missing int e req s :
  status_code (response (serve (view_function int e) req s)) = 404 ↔ missing e s.
Proof.
  destruct e.
  all: try (match goal with
            | |- context [serve (view_function ?i ?e) ?q ?d] =>
                destruct (reads_serve i e q d I) as (resp & -> & [[Hm ->]|[Hm Hok]])
            end;
            cbn [answer response status_code page_not_found];
            rewrite ?Hok; by split).
  all: cbn [view_function missing]; write_cases.
  all: split; first [done|congruence].
Qed.

(** ** Creating and deleting posts and tags *)


Lemma unique_names_check (t : gmap Z Tag.row) :
  bool_decide (NoDup (names t)) = true → unique_names t.
Proof.
  intros Hnodup%bool_decide_eq_true i j ti tj Hi Hj Hname.
  apply elem_of_map_to_list, list_elem_of_lookup in Hi as [a Ha], Hj as [b Hb].
  assert (names t !! a = Some (Tag.name ti)) as Hna.
  { unfold names. by rewrite !list_lookup_fmap, Ha. }
  assert (names t !! b = Some (Tag.name ti)) as Hnb.
  { unfold names. by rewrite !list_lookup_fmap, Hb, Hname. }
  pose proof (NoDup_lookup _ _ _ _ Hnodup Hna Hnb) as ->. congruence.
Qed.

(** X3. [posts_new] for an existing user, with a title and a content the
    driver takes (no NUL character in them) and tag ids that [int] reads,
    adds one post under the next id of the sequence: it has the submitted
    title and content, the time of the request and the user of the route,
    and is tagged with the submitted ids that have a tag (the others are
    dropped).  The other posts keep their rows and their tags; users and
    tags are as before. *)
Theorem posts_new_creates_post int user_id req s user title content ids :
  users s !! user_id = Some user →
  mapM int (getlist "tags" (form req)) = Some ids →
  form_lookup "title" (form req) = Some title →
  form_lookup "content" (form req) = Some content →
  has_nul title = false → has_nul content = false →
  posts s !! posts_id_seq s = None →
  let r := serve (posts_new int user_id) req s in
  response r = Redirect ("/users/" +:+ pretty user_id)
  ∧ posts (store r)
    = <[posts_id_seq s := Post.mk title content (now req) user_id]> (posts s)
  ∧ (∀ t, t ∈ tags_of (store r) (posts_id_seq s) ↔ t ∈ ids ∧ is_Some (tags s !! t))
  ∧ (∀ p, p ≠ posts_id_seq s → tags_of (store r) p = tags_of s p)
  ∧ users (store r) = users s
  ∧ tags (store r) = tags s
  ∧ posts_id_seq (store r) = posts_id_seq s + 1.
Proof.
  intros Huser Hids Htitle Hcontent Hclean1 Hclean2 Hfresh r. subst r.
  rewrite posts_new_serve, Huser, Hids, Htitle, Hcontent, Hfresh. cbv zeta.
  rewrite takes_post by done.
  cbn [response store set_posts_id_seq set_posts set_posts_tags users posts tags
       posts_id_seq].
  split_and!; try done.
  - intros t. rewrite elem_of_tags_of. cbn [posts_tags set_users set_posts set_tags set_posts_tags
         set_users_id_seq set_posts_id_seq set_tags_id_seq].
    rewrite elem_of_assign_tags. intuition.
  - intros p Hne. apply set_eq. intros t. rewrite !elem_of_tags_of.
    cbn [posts_tags set_users set_posts set_tags set_posts_tags
         set_users_id_seq set_posts_id_seq set_tags_id_seq]. rewrite elem_of_assign_tags. intuition.
Qed.

Lemma posts_new_creates_post_witness :
  let r := serve (posts_new decimal 2)
             (at_noon [("title", "Tape"); ("content", "Is infinite");
                       ("tags", "5"); ("tags", "8")]) demo in
  response r = Redirect "/users/2"
  ∧ posts (store r) = <[4 := Post.mk "Tape" "Is infinite" 1200 2]> (posts demo)
  ∧ (∀ t, t ∈ tags_of (store r) 4 ↔ t ∈ [5; 8] ∧ is_Some (tags demo !! t))
  ∧ (∀ p, p ≠ 4 → tags_of (store r) p = tags_of demo p)
  ∧ users (store r) = users demo
  ∧ tags (store r) = tags demo
  ∧ posts_id_seq (store r) = 5.
Proof.
  apply (posts_new_creates_post decimal 2
           (at_noon [("title", "Tape"); ("content", "Is infinite");
                     ("tags", "5"); ("tags", "8")]) demo
           (User.mk "Alan" "Turing" "alan.png") "Tape" "Is infinite" [5; 8]);
    reflexivity.
Defined.

(** X4. [posts_destroy] on an existing post removes the post and its
    rows in [posts_tags], and redirects to the page of its user.  The
    other posts keep their rows and their tags; users and tags are as
    before. *)
Theorem posts_destroy_removes_post post_id req s post :
  posts s !! post_id = Some post →
  let r := serve (posts_destroy post_id) req s in
  response r = Redirect ("/users/" +:+ pretty (Post.user_id post))
  ∧ posts (store r) = delete post_id (posts s)
  ∧ tags_of (store r) post_id = ∅
  ∧ (∀ p, p ≠ post_id → tags_of (store r) p = tags_of s p)
  ∧ users (store r) = users s
  ∧ tags (store r) = tags s.
Proof.
  intros Hpost r. subst r. rewrite posts_destroy_serve, Hpost.
  cbn [response store set_posts set_posts_tags users posts tags].
  split_and!; try done.
  - apply set_eq. intros t. rewrite elem_of_tags_of. cbn [posts_tags set_users set_posts set_tags set_posts_tags
         set_users_id_seq set_posts_id_seq set_tags_id_seq].
    rewrite elem_of_filter, elem_of_empty. cbn [fst]. tauto.
  - intros p Hne. apply set_eq. intros t. rewrite !elem_of_tags_of.
    cbn [posts_tags set_users set_posts set_tags set_posts_tags
         set_users_id_seq set_posts_id_seq set_tags_id_seq]. rewrite elem_of_filter. cbn [fst]. tauto.
Qed.

Lemma posts_destroy_removes_post_witness :
  let r := serve (posts_destroy 1) (at_noon []) demo in
  response r = Redirect "/users/1"
  ∧ posts (store r) = delete 1 (posts demo)
  ∧ tags_of (store r) 1 = ∅
  ∧ (∀ p, p ≠ 1 → tags_of (store r) p = tags_of demo p)
  ∧ users (store r) = users demo
  ∧ tags (store r) = tags demo.
Proof.
  apply (posts_destroy_removes_post 1 (at_noon []) demo
           (Post.mk "Notes" "On the engine" 100 1)).
  reflexivity.
Defined.



(** X6. [tags_edit] to a name that another tag carries fails, whatever
    else the form holds: the answer is 500 and the store is as it was, the
    posts of the tag included.  When the post ids of the form are numbers
    that [int] reads and the name is without a NUL character, the error
    the view raises is the integrity error of the unique index. *)
Theorem tags_edit_taken_name_refused int tag_id req s tag name other taken :
  tags s !! tag_id = Some tag →
  form_lookup "name" (form req) = Some name →
  tags s !! other = Some taken → other ≠ tag_id → Tag.name taken = name →
  let r := serve (tags_edit int tag_id) req s in
  status_code (response r) = 500
  ∧ store r = s
  ∧ (is_Some (mapM int (getlist "posts" (form req))) → has_nul name = false →
     raised (tags_edit int tag_id) req s = Some IntegrityError).
Proof.
  intros Htag Hname Hother Hne Htaken r. subst r.
  destruct (tags_edit_name_in_use int tag_id req s tag name other taken)
    as [-> Hraised]; done.
Qed.

Lemma tags_edit_taken_name_refused_witness :
  (let r := serve (tags_edit decimal 2)
              (at_noon [("name", "math"); ("posts", "3")]) demo in
   status_code (response r) = 500
   ∧ store r = demo
   ∧ raised (tags_edit decimal 2) (at_noon [("name", "math"); ("posts", "3")]) demo
     = Some IntegrityError)
  ∧ (let r := serve (tags_edit decimal 2)
                (at_noon [("name", "math"); ("posts", "x")]) demo in
     status_code (response r) = 500 ∧ store r = demo).
Proof.
  split.
  - destruct (tags_edit_taken_name_refused decimal 2
                (at_noon [("name", "math"); ("posts", "3")]) demo
                (Tag.mk "fun") "math" 5 (Tag.mk "math"))
      as (Hstatus & Hstore & Hraised); [reflexivity..|lia|reflexivity|].
    split_and!; [done|done|]. apply Hraised; [by eexists|reflexivity].
  - destruct (tags_edit_taken_name_refused decimal 2
                (at_noon [("name", "math"); ("posts", "x")]) demo
                (Tag.mk "fun") "math" 5 (Tag.mk "math"))
      as (Hstatus & Hstore & _); [reflexivity..|lia|reflexivity|].
    by split.
Defined.

(** X7. A tag can be edited under its own name: where tag names are
    unique, [tags_edit] with the name the tag has goes through, leaves
    the table of tags as it was and puts the tag on the submitted posts
    that exist. *)
Theorem tags_edit_keeps_own_name int tag_id req s tag ids :
  tags s !! tag_id = Some tag →
  form_lookup "name" (form req) = Some (Tag.name tag) →
  mapM int (getlist "posts" (form req)) = Some ids →
  unique_names (tags s) →
  let r := serve (tags_edit int tag_id) req s in
  response r = Redirect "/tags"
  ∧ tags (store r) = tags s
  ∧ (∀ p, p ∈ posts_of (store r) tag_id ↔ p ∈ ids ∧ is_Some (posts s !! p)).
Proof.
  intros Htag Hname Hids Hunique r. subst r.
  rewrite (tags_edit_run int tag_id req s tag (Tag.name tag) ids Htag Hname Hids).
  2: { apply (refuses_same (Tag.text tag)). }
  2: { intros j tj Hj Heq. by apply (Hunique j tag_id tj tag). }
  cbn [response store set_tags set_posts_tags tags].
  split_and!; [done| |].
  - apply insert_id. by destruct tag.
  - intros p. rewrite elem_of_posts_of. cbn [posts_tags set_users set_posts set_tags set_posts_tags
         set_users_id_seq set_posts_id_seq set_tags_id_seq].
    rewrite elem_of_assign_posts. intuition.
Qed.

Lemma tags_edit_keeps_own_name_witness :
  let r := serve (tags_edit decimal 7)
             (at_noon [("name", "logic"); ("posts", "3")]) demo in
  response r = Redirect "/tags"
  ∧ tags (store r) = tags demo
  ∧ (∀ p, p ∈ posts_of (store r) 7 ↔ p ∈ [3] ∧ is_Some (posts demo !! p)).
Proof.
  apply (tags_edit_keeps_own_name decimal 7
           (at_noon [("name", "logic"); ("posts", "3")]) demo
           (Tag.mk "logic") [3]); [reflexivity..|].
  apply unique_names_check. reflexivity.
Defined.

(** ** Invariants of the store *)

(** X8. In every store the application reaches, the foreign keys hold
    and the sequences are ahead: every post has its user in [users],
    every row of [posts_tags] has its post and its tag, and every id in
    use is below the next id of its sequence, so that no id is handed out
    twice. *)
Theorem reachable_store_invariants int s :
  reachable int s →
  (∀ p post, posts s !! p = Some post → is_Some (users s !! Post.user_id post))
  ∧ (∀ p t, (p, t) ∈ posts_tags s → is_Some (posts s !! p) ∧ is_Some (tags s !! t))
  ∧ (∀ i, is_Some (users s !! i) → i < users_id_seq s)
  ∧ (∀ i, is_Some (posts s !! i) → i < posts_id_seq s)
  ∧ (∀ i, is_Some (tags s !! i) → i < tags_id_seq s).
Proof.
  intros Hs. destruct (reachable_consistent int s Hs) as [Hposts Hrows].
  destruct (reachable_ahead int s Hs) as (Hu & Hp & Ht). done.
Qed.

Lemma reachable_store_invariants_witness :
  let s := store (serve (view_function decimal (POST_posts_new 1))
                    (at_noon [("title", "Notes"); ("content", "On the engine")])
                    (store (serve (view_function decimal POST_users_new)
                              (at_noon [("first_name", "Ada"); ("last_name", "Lovelace");
                                        ("image_url", "")]) create_all))) in
  (∀ p post, posts s !! p = Some post → is_Some (users s !! Post.user_id post))
  ∧ (∀ p t, (p, t) ∈ posts_tags s → is_Some (posts s !! p) ∧ is_Some (tags s !! t))
  ∧ (∀ i, is_Some (users s !! i) → i < users_id_seq s)
  ∧ (∀ i, is_Some (posts s !! i) → i < posts_id_seq s)
  ∧ (∀ i, is_Some (tags s !! i) → i < tags_id_seq s).
Proof.
  apply (reachable_store_invariants decimal).
  apply reachable_step, reachable_step, reachable_init.
Defined.

(** ** Forms that miss a field or carry an unreadable id *)

Lemma elem_of_three (key a b c : string) :
  key ∈ [a; b; c] → key = a ∨ key = b ∨ key = c.
Proof. rewrite !elem_of_cons, elem_of_nil. tauto. Qed.

Lemma elem_of_two (key a b : string) : key ∈ [a; b] → key = a ∨ key = b.
Proof. rewrite !elem_of_cons, elem_of_nil. tauto. Qed.

Lemma elem_of_one (key a : string) : key ∈ [a] → key = a.
Proof. rewrite !elem_of_cons, elem_of_nil. tauto. Qed.

Ltac which_field H :=
  first [ apply elem_of_three in H as [-> | [-> | ->]]
        | apply elem_of_two in H as [-> | ->]
        | apply elem_of_one in H as ->
        | by apply elem_of_nil in H ].

(** X9. A writing view answers 400 exactly for a form that misses a key
    the view subscripts.  If the answer is 400, the entity of the route
    exists and one of those keys is absent.  Conversely, when the entity
    exists, the ids of the form are readable and one of the keys is
    absent, the answer is 400 and the store is as it was: what the view
    assigned before it reached the missing key is rolled back. *)
Theorem bad_request_iff_missing_field int e req s :
  let r := serve (view_function int e) req s in
  (status_code (response r) = 400 →
   ¬ missing e s ∧ ∃ key, key ∈ fields e ∧ form_lookup key (form req) = None)
  ∧ (¬ missing e s →
     (∀ field, ids_field e = Some field →
               is_Some (mapM int (getlist field (form req)))) →
     (∃ key, key ∈ fields e ∧ form_lookup key (form req) = None) →
     status_code (response r) = 400 ∧ store r = s).
Proof.
  intros r. subst r. split.
  - destruct e.
    all: try (match goal with
              | |- context [serve (view_function ?i ?e) ?q ?d] =>
                  destruct (reads_serve i e q d I) as (resp & -> & [[Hm ->]|[Hm Hok]])
              end;
              cbn [answer response status_code page_not_found];
              rewrite ?Hok; done).
    all: cbn [view_function missing fields]; write_cases; try done.
    all: intros _; split; [congruence|].
    all: first [ by exists "first_name"; split; [set_solver|]
               | by exists "last_name"; split; [set_solver|]
               | by exists "image_url"; split; [set_solver|]
               | by exists "title"; split; [set_solver|]
               | by exists "content"; split; [set_solver|]
               | by exists "name"; split; [set_solver|] ].
  - intros Hthere Hparse (key & Hkey & Hnone). destruct e.
    all: cbn [fields] in Hkey; try by apply elem_of_nil in Hkey.
    all: cbn [view_function missing ids_field] in *; which_field Hkey.
    all: try (destruct (Hparse _ eq_refl) as [ids Hids]).
    all: write_cases; try done; congruence.
Qed.

Lemma bad_request_iff_missing_field_witness :
  let r := serve (view_function decimal (POST_users_update 1))
             (at_noon [("first_name", "Augusta"); ("last_name", "King")]) demo in
  status_code (response r) = 400 ∧ store r = demo.
Proof.
  apply (bad_request_iff_missing_field decimal (POST_users_update 1)
           (at_noon [("first_name", "Augusta"); ("last_name", "King")]) demo).
  - discriminate.
  - discriminate.
  - exists "image_url". split; [|reflexivity].
    apply list_elem_of_In. right. right. by left.
Defined.

(** X10. An id in the form that [int] does not read makes the view fail
    with a server error, and the store stays as it was: for an existing
    entity and a form with the keys the view subscripts, one unreadable
    value under [tags] (for a post) or [posts] (for a tag) gives 500, no
    row is written and no id is drawn. *)
Theorem unreadable_id_server_error int e req s field :
  ids_field e = Some field →
  ¬ missing e s →
  (∀ key, key ∈ fields e → is_Some (form_lookup key (form req))) →
  mapM int (getlist field (form req)) = None →
  let r := serve (view_function int e) req s in
  status_code (response r) = 500
  ∧ store r = s
  ∧ ∃ bad, bad ∈ getlist field (form req) ∧ int bad = None.
Proof.
  intros Hfield Hthere Hkeys Hids r. subst r.
  split_and!.
  3: { apply mapM_None_1, Exists_exists in Hids as (bad & Hin & Hbad). eauto. }
  all: destruct e; try done; cbn [ids_field] in Hfield; injection Hfield as <-.
  all: cbn [view_function missing fields] in *; write_cases; try done.
  all: try congruence.
  all: exfalso.
  all: first [ destruct (Hkeys "title") as [? ?]; [set_solver|congruence]
             | destruct (Hkeys "content") as [? ?]; [set_solver|congruence]
             | destruct (Hkeys "name") as [? ?]; [set_solver|congruence] ].
Qed.

Lemma unreadable_id_server_error_witness :
  let r := serve (view_function decimal (POST_posts_update 1))
             (at_noon [("title", "Lost"); ("content", "Lost too");
                       ("tags", "seven")]) demo in
  status_code (response r) = 500
  ∧ store r = demo
  ∧ ∃ bad, bad ∈ getlist "tags" [("title", "Lost"); ("content", "Lost too");
                                 ("tags", "seven")]
           ∧ decimal bad = None.
Proof.
  apply (unreadable_id_server_error decimal (POST_posts_update 1)
           (at_noon [("title", "Lost"); ("content", "Lost too"); ("tags", "seven")])
           demo "tags").
  - reflexivity.
  - discriminate.
  - intros key [->| ->]%elem_of_two; by eexists.
  - reflexivity.
Defined.

(** ** Requests in sequence *)

Lemma assign_tags_again (pts : gset (Z * Z)) (ts : gmap Z Tag.row) post_id
    (ids : list Z) :
  filter (λ pt, pt.1 ≠ post_id)
    (filter (λ pt, pt.1 ≠ post_id) pts
     ∪ list_to_set ((λ e : Z * Tag.row, (post_id, e.1)) <$>
          map_to_list (filter (λ kv, kv.1 ∈ ids) ts)))
  ∪ list_to_set ((λ e : Z * Tag.row, (post_id, e.1)) <$>
       map_to_list (filter (λ kv, kv.1 ∈ ids) ts))
  = filter (λ pt, pt.1 ≠ post_id) pts
    ∪ list_to_set ((λ e : Z * Tag.row, (post_id, e.1)) <$>
         map_to_list (filter (λ kv, kv.1 ∈ ids) ts)).
Proof.
  apply set_eq. intros [p t]. rewrite (elem_of_assign_tags _ ts post_id ids p t).
  rewrite !elem_of_assign_tags. tauto.
Qed.

Lemma assign_posts_again (pts : gset (Z * Z)) (ps : gmap Z Post.row) tag_id
    (ids : list Z) :
  filter (λ pt, pt.2 ≠ tag_id)
    (filter (λ pt, pt.2 ≠ tag_id) pts
     ∪ list_to_set ((λ e : Z * Post.row, (e.1, tag_id)) <$>
          map_to_list (filter (λ kv, kv.1 ∈ ids) ps)))
  ∪ list_to_set ((λ e : Z * Post.row, (e.1, tag_id)) <$>
       map_to_list (filter (λ kv, kv.1 ∈ ids) ps))
  = filter (λ pt, pt.2 ≠ tag_id) pts
    ∪ list_to_set ((λ e : Z * Post.row, (e.1, tag_id)) <$>
         map_to_list (filter (λ kv, kv.1 ∈ ids) ps)).
Proof.
  apply set_eq. intros [p t]. rewrite (elem_of_assign_posts _ ps tag_id ids p t).
  rewrite !elem_of_assign_posts. tauto.
Qed.

(** X11. Edits are idempotent: sending the form of [users_update],
    [posts_update] or [tags_edit] a second time gets the answer of the
    first time and leaves the store the first request made, whether the
    request goes through or fails. *)
Theorem edits_are_idempotent int e req s :
  updates e →
  serve (view_function int e) req (store (serve (view_function int e) req s))
  = serve (view_function int e) req s.
Proof.
  intros Hupdates. destruct e; try done; cbn [view_function]; open_store s.
  - rewrite (users_update_serve user_id req (mkStore us ps ts pts useq pseq tseq)).
    cbn [users]. cbv zeta.
    destruct (us !! user_id) as [user|] eqn:Huser;
      [destruct (form_lookup "first_name" (form req)) as [first_name|] eqn:Hfirst;
       [destruct (form_lookup "last_name" (form req)) as [last_name|] eqn:Hlast;
        [destruct (form_lookup "image_url" (form req)) as [image_url|] eqn:Himage;
         [destruct (refuses _ _) eqn:Hnul|]|]|]|];
      cbn [store answer]; rewrite users_update_serve; unfold set_users;
      cbn [users posts tags posts_tags users_id_seq posts_id_seq tags_id_seq];
      cbv zeta;
      rewrite ?lookup_insert_eq, ?Huser, ?Hfirst, ?Hlast, ?Himage,
        ?refuses_same, ?Hnul; try done.
    by rewrite insert_insert_eq.
  - rewrite (posts_update_serve int post_id req (mkStore us ps ts pts useq pseq tseq)).
    cbn [posts]. cbv zeta.
    destruct (ps !! post_id) as [post|] eqn:Hpost;
      [destruct (form_lookup "title" (form req)) as [title|] eqn:Htitle;
       [destruct (form_lookup "content" (form req)) as [content|] eqn:Hcontent;
        [destruct (mapM int (getlist "tags" (form req))) as [ids|] eqn:Hids;
         [destruct (refuses _ _) eqn:Hnul|]|]|]|];
      cbn [store answer]; rewrite posts_update_serve;
      unfold set_posts, set_posts_tags;
      cbn [users posts tags posts_tags users_id_seq posts_id_seq tags_id_seq];
      cbv zeta;
      rewrite ?lookup_insert_eq, ?Hpost, ?Htitle, ?Hcontent, ?Hids; try done;
      cbn [Post.user_id Post.created_at Post.text Post.title Post.content];
      rewrite ?refuses_same, ?Hnul; try done.
    by rewrite insert_insert_eq, assign_tags_again.
  - rewrite (tags_edit_serve int tag_id req (mkStore us ps ts pts useq pseq tseq)).
    cbn [tags].
    destruct (ts !! tag_id) as [tag|] eqn:Htag;
      [destruct (form_lookup "name" (form req)) as [name|] eqn:Hname;
       [destruct (mapM int (getlist "posts" (form req))) as [ids|] eqn:Hids;
        [destruct (refuses _ _) eqn:Hnul;
         [|destruct (decide (name ∈ names (delete tag_id ts))) as [Hin|Hout]]|]|]|];
      cbn [store answer]; rewrite tags_edit_serve;
      unfold set_tags, set_posts_tags;
      cbn [users posts tags posts_tags users_id_seq posts_id_seq tags_id_seq];
      rewrite ?lookup_insert_eq, ?delete_insert_eq, ?Htag, ?Hname, ?Hids,
        ?refuses_same, ?Hnul; try done.
    + by rewrite decide_True.
    + rewrite decide_False by done.
      by rewrite insert_insert_eq, assign_posts_again.
Qed.

Lemma edits_are_idempotent_witness :
  serve (view_function decimal (POST_posts_update 1))
    (at_noon [("title", "Notes"); ("content", "Revised"); ("tags", "5")])
    (store (serve (view_function decimal (POST_posts_update 1))
              (at_noon [("title", "Notes"); ("content", "Revised"); ("tags", "5")])
              demo))
  = serve (view_function decimal (POST_posts_update 1))
      (at_noon [("title", "Notes"); ("content", "Revised"); ("tags", "5")]) demo.
Proof.
  apply (edits_are_idempotent decimal (POST_posts_update 1)). exact I.
Defined.

Lemma ahead_fresh s :
  ahead s s →
  users s !! users_id_seq s = None
  ∧ posts s !! posts_id_seq s = None
  ∧ tags s !! tags_id_seq s = None.
Proof.
  intros (Hu & Hp & Ht).
  split_and!; apply eq_None_not_Some; intros Hi.
  - apply Hu in Hi. lia.
  - apply Hp in Hi. lia.
  - apply Ht in Hi. lia.
Qed.

(** X12. Creating an entity and deleting it again restores every table.
    In a store with its foreign keys and with its sequences ahead (every
    store the application reaches is one), [users_new] followed by
    [users_destroy] of the new user, [posts_new] followed by
    [posts_destroy] of the new post, and [tags_new] followed by
    [tags_destroy] of the new tag leave the rows of all four tables as
    they were. *)
Theorem create_then_destroy_restores_rows int s :
  consistent s → ahead s s →
  (∀ req req' first_name last_name image_url,
     form_lookup "first_name" (form req) = Some first_name →
     form_lookup "last_name" (form req) = Some last_name →
     form_lookup "image_url" (form req) = Some image_url →
     same_rows s
       (store (serve (users_destroy (users_id_seq s)) req'
                 (store (serve users_new req s)))))
  ∧ (∀ user_id req req' user title content ids,
       users s !! user_id = Some user →
       mapM int (getlist "tags" (form req)) = Some ids →
       form_lookup "title" (form req) = Some title →
       form_lookup "content" (form req) = Some content →
       same_rows s
         (store (serve (posts_destroy (posts_id_seq s)) req'
                   (store (serve (posts_new int user_id) req s)))))
  ∧ (∀ req req' name ids,
       mapM int (getlist "posts" (form req)) = Some ids →
       form_lookup "name" (form req) = Some name →
       (∀ j tj, tags s !! j = Some tj → Tag.name tj ≠ name) →
       same_rows s
         (store (serve (tags_destroy (tags_id_seq s)) req'
                   (store (serve (tags_new int) req s))))).
Proof.
  intros [Hposts Hrows] Hahead.
  destruct (ahead_fresh s Hahead) as (Hu & Hp & Ht). open_store s.
  split_and!.
  - intros req req' first_name last_name image_url Hfirst Hlast Himage.
    rewrite users_new_serve, Hfirst, Hlast, Himage. cbv zeta.
    cbn [users users_id_seq]. destruct (existsb has_nul _).
    { cbn [store answer]. rewrite users_destroy_serve. cbn [users users_id_seq].
      by rewrite Hu. }
    rewrite Hu. cbn [store]. rewrite users_destroy_serve.
    unfold set_users_id_seq, set_users, set_posts, set_posts_tags, same_rows.
    cbn [users posts tags posts_tags users_id_seq]. rewrite lookup_insert_eq.
    cbn [store users posts tags posts_tags].
    assert (∀ p, p ∉ dom (posts_by
              {| users := <[useq := User.mk first_name last_name
                               (if decide (image_url = "") then DEFAULT_IMAGE_URL
                                else image_url)]> us;
                 posts := ps; tags := ts; posts_tags := pts;
                 users_id_seq := useq + 1; posts_id_seq := pseq;
                 tags_id_seq := tseq |} useq)) as Hnone.
    { intros p (post & Hpost & Huid)%elem_of_dom_posts_by. cbn [posts] in Hpost.
      destruct (Hposts p post Hpost) as [u Hu']. congruence. }
    split_and!; [by apply delete_insert_id| |done|].
    + apply map_filter_id. intros p post _. apply Hnone.
    + apply set_eq. intros [p t]. rewrite elem_of_filter. cbn [fst].
      specialize (Hnone p). tauto.
  - intros user_id req req' user title content ids Huser Hids Htitle Hcontent.
    rewrite posts_new_serve, Hids, Htitle, Hcontent. cbv zeta.
    cbn [users posts posts_id_seq]. rewrite Huser.
    destruct (existsb has_nul _).
    { cbn [store answer]. rewrite posts_destroy_serve. cbn [posts posts_id_seq].
      by rewrite Hp. }
    rewrite Hp. cbn [store]. rewrite posts_destroy_serve.
    unfold set_posts_id_seq, set_posts, set_posts_tags, same_rows.
    cbn [users posts tags posts_tags posts_id_seq]. rewrite lookup_insert_eq.
    cbn [store users posts tags posts_tags].
    split_and!; [done|by apply delete_insert_id|done|].
    apply set_eq. intros [p t]. rewrite elem_of_filter, elem_of_assign_tags.
    cbn [fst]. split; [tauto|]. intros Hin.
    destruct (Hrows p t Hin) as [[post Hpost] _].
    assert (p ≠ pseq) by congruence. tauto.
  - intros req req' name ids Hids Hname Hfree.
    rewrite tags_new_serve, Hids, Hname. cbn [tags tags_id_seq].
    destruct (existsb has_nul _).
    { cbn [store answer]. rewrite tags_destroy_serve. cbn [tags tags_id_seq].
      by rewrite Ht. }
    rewrite Ht. rewrite decide_False.
    2: { intros (j & tj & Hj & Heq)%elem_of_names. by apply (Hfree j tj). }
    cbn [store]. rewrite tags_destroy_serve.
    unfold set_tags_id_seq, set_tags, set_posts_tags, same_rows.
    cbn [users posts tags posts_tags tags_id_seq]. rewrite lookup_insert_eq.
    cbn [store users posts tags posts_tags].
    split_and!; [done|done|by apply delete_insert_id|].
    apply set_eq. intros [p t]. rewrite elem_of_filter, elem_of_assign_posts.
    cbn [snd]. split; [tauto|]. intros Hin.
    destruct (Hrows p t Hin) as [_ [tag Htag]].
    assert (t ≠ tseq) by congruence. tauto.
Qed.

Lemma create_then_destroy_restores_rows_witness :
  let s := store (serve (view_function decimal POST_users_new)
                    (at_noon [("first_name", "Ada"); ("last_name", "Lovelace");
                              ("image_url", "")]) create_all) in
  same_rows s
    (store (serve (posts_destroy (posts_id_seq s)) (at_noon [])
              (store (serve (posts_new decimal 1)
                        (at_noon [("title", "Notes"); ("content", "On the engine")])
                        s)))).
Proof.
  intros s.
  assert (reachable decimal s) as Hs by apply reachable_step, reachable_init.
  destruct (create_then_destroy_restores_rows decimal s
              (reachable_consistent decimal s Hs) (reachable_ahead decimal s Hs))
    as (_ & Hpost & _).
  apply (Hpost 1 (at_noon [("title", "Notes"); ("content", "On the engine")])
           (at_noon []) (User.mk "Ada" "Lovelace" DEFAULT_IMAGE_URL)
           "Notes" "On the engine" []); reflexivity.
Defined.

Lemma sorted_head (ps : list (Z * Post.row)) (x : Z * Post.row) :
  StronglySorted later ps →
  x ∈ ps →
  (∀ y, y ∈ ps → y ≠ x → Post.created_at y.2 < Post.created_at x.2) →
  ∃ rest, ps = x :: rest.
Proof.
  intros Hsorted Hx Holder. destruct ps as [|h rest].
  - by apply elem_of_nil in Hx.
  - destruct (decide (h = x)) as [->|Hne]; [by exists rest|].
    apply elem_of_cons in Hx as [->|Hx]; [done|].
    apply StronglySorted_cons in Hsorted as [Hall _].
    rewrite Forall_forall in Hall. specialize (Hall x Hx). unfold later in Hall.
    specialize (Holder h (list_elem_of_here _ _) Hne). lia.
Qed.

Lemma older_check (m : gmap Z Post.row) (n : Z) :
  bool_decide (map_Forall (λ _ post, Post.created_at post < n) m) = true →
  ∀ p post, m !! p = Some post → Post.created_at post < n.
Proof. intros Hall%bool_decide_eq_true p post Hp. by apply (Hall p post). Qed.

(** X13. A new post heads the homepage.  A [posts_new] for an existing
    user, with readable tag ids, a title and a content without a NUL
    character and a free next id goes through; when its time is later than
    the creation of every post of the store, the first post the homepage
    then shows is the new one. *)
Theorem newest_post_heads_homepage int user_id req req' s user title content ids :
  users s !! user_id = Some user →
  mapM int (getlist "tags" (form req)) = Some ids →
  form_lookup "title" (form req) = Some title →
  form_lookup "content" (form req) = Some content →
  has_nul title = false → has_nul content = false →
  posts s !! posts_id_seq s = None →
  (∀ p post, posts s !! p = Some post → Post.created_at post < now req) →
  ∃ rest,
    status_code (response (serve (posts_new int user_id) req s)) = 302
    ∧ response (serve root req' (store (serve (posts_new int user_id) req s)))
      = Page 200 "posts/homepage.html"
          [("posts", some_posts
              ((posts_id_seq s, Post.mk title content (now req) user_id) :: rest))].
Proof.
  intros Huser Hids Htitle Hcontent Hclean1 Hclean2 Hfresh Holder.
  rewrite posts_new_serve, Huser, Hids, Htitle, Hcontent, Hfresh. cbv zeta.
  rewrite takes_post by done.
  cbn [store]. rewrite root_run.
  cbn [response posts set_posts_id_seq set_posts set_posts_tags].
  set (new_post := Post.mk title content (now req) user_id).
  set (shown := order_by_created_at_desc
                  (map_to_list (<[posts_id_seq s := new_post]> (posts s)))).
  destruct (sorted_head shown (posts_id_seq s, new_post)) as [rest Hshown].
  - apply order_by_created_at_desc_sorted.
  - unfold shown. rewrite order_by_created_at_desc_perm.
    apply elem_of_map_to_list, lookup_insert_eq.
  - intros [p post] Hin Hne. unfold shown in Hin.
    rewrite order_by_created_at_desc_perm in Hin.
    apply elem_of_map_to_list, lookup_insert_Some in Hin as [[<- <-]|[_ Hp]];
      [done|]. cbn [snd new_post Post.created_at]. by apply (Holder p).
  - rewrite Hshown. by exists (take 4 rest).
Qed.

Lemma newest_post_heads_homepage_witness :
  ∃ rest,
    status_code (response (serve (posts_new decimal 2)
                             (at_noon [("title", "Tape"); ("content", "Is infinite")])
                             demo)) = 302
    ∧ response (serve root (at_noon [])
                  (store (serve (posts_new decimal 2)
                            (at_noon [("title", "Tape"); ("content", "Is infinite")])
                            demo)))
      = Page 200 "posts/homepage.html"
          [("posts", some_posts ((4, Post.mk "Tape" "Is infinite" 1200 2) :: rest))].
Proof.
  apply (newest_post_heads_homepage decimal 2
           (at_noon [("title", "Tape"); ("content", "Is infinite")]) (at_noon [])
           demo (User.mk "Alan" "Turing" "alan.png") "Tape" "Is infinite" []);
    [reflexivity..|].
  apply older_check. reflexivity.
Defined.

(** X14. Creating never touches what is there: whatever the request and
    the store, [users_new] keeps every user, [posts_new] every post and
    [tags_new] every tag as it is; a row is only ever added under an id
    that is free. *)
Theorem creating_keeps_existing_rows int req s :
  (∀ id user, users s !! id = Some user →
              users (store (serve users_new req s)) !! id = Some user)
  ∧ (∀ user_id id post, posts s !! id = Some post →
       posts (store (serve (posts_new int user_id) req s)) !! id = Some post)
  ∧ (∀ id tag, tags s !! id = Some tag →
               tags (store (serve (tags_new int) req s)) !! id = Some tag).
Proof.
  split_and!.
  - intros id user Hid. rewrite users_new_serve. cbv zeta.
    repeat case_match;
      cbn [store answer set_users_id_seq set_users users]; try done.
    all: rewrite lookup_insert_ne; [done|congruence].
  - intros user_id id post Hid. rewrite posts_new_serve. cbv zeta.
    repeat case_match;
      cbn [store answer set_posts_id_seq set_posts set_posts_tags posts]; try done.
    rewrite lookup_insert_ne; [done|congruence].
  - intros id tag Hid. rewrite tags_new_serve. cbv zeta.
    repeat case_match;
      cbn [store answer set_tags_id_seq set_tags set_posts_tags tags]; try done.
    rewrite lookup_insert_ne; [done|congruence].
Qed.

Lemma creating_keeps_existing_rows_witness :
  users (store (serve users_new
                  (at_noon [("first_name", "Grace"); ("last_name", "Hopper");
                            ("image_url", "")]) demo)) !! 2
  = Some (User.mk "Alan" "Turing" "alan.png").
Proof.
  destruct (creating_keeps_existing_rows decimal
              (at_noon [("first_name", "Grace"); ("last_name", "Hopper");
                        ("image_url", "")]) demo) as (Husers & _ & _).
  apply Husers. reflexivity.
Defined.

(** ** The listing views *)

Lemma map_to_list_complete {R} (m : gmap Z R) :
  NoDup (map_to_list m) ∧ ∀ i r, (i, r) ∈ map_to_list m ↔ m !! i = Some r.
Proof. split; [apply NoDup_map_to_list|]. intros i r. apply elem_of_map_to_list. Qed.

(** X15. The forms offer every row to choose from: [tags_index] and the
    forms of [posts_new_form] and [posts_edit] list every tag of the store
    once and nothing else, [tags_new_form] and [tags_edit_form] every
    post; [users_new_form] is the empty form.  None of them writes. *)
Theorem forms_list_every_row int req s :
  serve users_new_form req s = answer (Page 200 "users/new.html" []) s
  ∧ (∃ shown,
       serve tags_index req s
       = answer (Page 200 "tags/index.html" [("tags", some_tags shown)]) s
       ∧ NoDup shown ∧ ∀ i t, (i, t) ∈ shown ↔ tags s !! i = Some t)
  ∧ (∃ shown,
       serve tags_new_form req s
       = answer (Page 200 "tags/new.html" [("posts", some_posts shown)]) s
       ∧ NoDup shown ∧ ∀ i p, (i, p) ∈ shown ↔ posts s !! i = Some p)
  ∧ (∀ user_id user, users s !! user_id = Some user →
       ∃ shown,
         serve (view_function int (GET_posts_new_form user_id)) req s
         = answer (Page 200 "posts/new.html"
                     [("user", a_user (user_id, user)); ("tags", some_tags shown)]) s
         ∧ NoDup shown ∧ ∀ i t, (i, t) ∈ shown ↔ tags s !! i = Some t)
  ∧ (∀ post_id post, posts s !! post_id = Some post →
       ∃ shown,
         serve (view_function int (GET_posts_edit post_id)) req s
         = answer (Page 200 "posts/edit.html"
                     [("post", a_post (post_id, post)); ("tags", some_tags shown)]) s
         ∧ NoDup shown ∧ ∀ i t, (i, t) ∈ shown ↔ tags s !! i = Some t)
  ∧ (∀ tag_id tag, tags s !! tag_id = Some tag →
       ∃ shown,
         serve (view_function int (GET_tags_edit_form tag_id)) req s
         = answer (Page 200 "tags/edit.html"
                     [("tag", a_tag (tag_id, tag)); ("posts", some_posts shown)]) s
         ∧ NoDup shown ∧ ∀ i p, (i, p) ∈ shown ↔ posts s !! i = Some p).
Proof.
  open_store s. split_and!.
  - unfold users_new_form, answer. by run_view.
  - exists (map_to_list ts). split; [|apply map_to_list_complete].
    unfold tags_index, answer. by run_view.
  - exists (map_to_list ps). split; [|apply map_to_list_complete].
    unfold tags_new_form, answer. by run_view.
  - intros user_id user Huser. exists (map_to_list ts).
    split; [|apply map_to_list_complete].
    cbn [view_function]. unfold posts_new_form, answer. run_view.
    rewrite Huser. by run_view.
  - intros post_id post Hpost. exists (map_to_list ts).
    split; [|apply map_to_list_complete].
    cbn [view_function]. unfold posts_edit, answer. run_view.
    rewrite Hpost. by run_view.
  - intros tag_id tag Htag. exists (map_to_list ps).
    split; [|apply map_to_list_complete].
    cbn [view_function]. unfold tags_edit_form, answer. run_view.
    rewrite Htag. by run_view.
Qed.

Lemma forms_list_every_row_witness :
  ∃ shown,
    serve (view_function decimal (GET_posts_edit 1)) (at_noon []) demo
    = answer (Page 200 "posts/edit.html"
                [("post", a_post (1, Post.mk "Notes" "On the engine" 100 1));
                 ("tags", some_tags shown)]) demo
    ∧ NoDup shown ∧ ∀ i t, (i, t) ∈ shown ↔ tags demo !! i = Some t.
Proof.
  destruct (forms_list_every_row decimal (at_noon []) demo)
    as (_ & _ & _ & _ & Hedit & _).
  apply Hedit. reflexivity.
Defined.

Section users_index.
Context (text_le : relation string) `{!RelDecision text_le}.
Context `{!Total text_le, !Transitive text_le}.

#[local] Instance by_name_total : Total (by_name text_le).
Proof.
  intros u v. unfold by_name.
  destruct (total text_le (User.last_name u.2) (User.last_name v.2)) as [Hl|Hl];
    destruct (total text_le (User.first_name u.2) (User.first_name v.2)) as [Hf|Hf];
    destruct (decide (text_le (User.last_name u.2) (User.last_name v.2)));
    destruct (decide (text_le (User.last_name v.2) (User.last_name u.2)));
    tauto.
Qed.

#[local] Instance by_name_trans : Transitive (by_name text_le).
Proof.
  intros u v w [Hl1 Hf1] [Hl2 Hf2]. split; [by etrans|].
  intros Hback. etrans; [apply Hf1|apply Hf2]; by etrans.
Qed.

(** X16. [users_index] lists every user of the store once, ordered by
    last name and, among equal last names, by first name, in the order
    the database gives to text; it writes nothing. *)
Theorem users_index_sorted req s :
  ∃ shown,
    users_index text_le req {| database := s; pending := s; dirty := ∅; flashes := [] |}
    = ({| database := s; pending := s; dirty := ∅; flashes := [] |},
       Return ("users/index.html", shown))
    ∧ shown ≡ₚ map_to_list (users s)
    ∧ StronglySorted (by_name text_le) shown.
Proof.
  exists (merge_sort (by_name text_le) (map_to_list (users s))). split_and!.
  - unfold users_index. by run_view.
  - apply merge_sort_Permutation.
  - apply StronglySorted_merge_sort; apply _.
Qed.

End users_index.

Lemma bytes_le_total x y : bytes_le x y = true ∨ bytes_le y x = true.
Proof.
  revert y. induction x as [|a x IH]; intros [|b y]; cbn; auto.
  destruct (N.ltb_spec (N_of_ascii a) (N_of_ascii b));
    destruct (N.ltb_spec (N_of_ascii b) (N_of_ascii a));
    destruct (N.eqb_spec (N_of_ascii a) (N_of_ascii b));
    destruct (N.eqb_spec (N_of_ascii b) (N_of_ascii a));
    auto; lia.
Qed.

Lemma bytes_le_trans x y z :
  bytes_le x y = true → bytes_le y z = true → bytes_le x z = true.
Proof.
  revert y z. induction x as [|a x IH]; intros [|b y] [|c z]; cbn; try done.
  destruct (N.ltb_spec (N_of_ascii a) (N_of_ascii b));
    destruct (N.ltb_spec (N_of_ascii b) (N_of_ascii c));
    destruct (N.ltb_spec (N_of_ascii a) (N_of_ascii c));
    destruct (N.eqb_spec (N_of_ascii a) (N_of_ascii b));
    destruct (N.eqb_spec (N_of_ascii b) (N_of_ascii c));
    destruct (N.eqb_spec (N_of_ascii a) (N_of_ascii c));
    try done; try lia. apply IH.
Qed.

#[global] Instance bytes_le_dec : RelDecision (λ x y, bytes_le x y = true).
Proof. intros x y. apply _. Defined.

#[global] Instance bytes_le_is_total : Total (λ x y, bytes_le x y = true).
Proof. intros x y. apply bytes_le_total. Qed.

#[global] Instance bytes_le_is_trans : Transitive (λ x y, bytes_le x y = true).
Proof. intros x y z. apply bytes_le_trans. Qed.

Lemma users_index_sorted_witness :
  ∃ shown,
    users_index (λ x y, bytes_le x y = true) (at_noon [])
      {| database := demo; pending := demo; dirty := ∅; flashes := [] |}
    = ({| database := demo; pending := demo; dirty := ∅; flashes := [] |},
       Return ("users/index.html", shown))
    ∧ shown ≡ₚ map_to_list (users demo)
    ∧ StronglySorted (by_name (λ x y, bytes_le x y = true)) shown.
Proof. apply (users_index_sorted (λ x y, bytes_le x y = true)). Defined.

(** ** Saving a form as it was opened *)

(** X17. Saving an edit form without a change changes nothing.  In a
    store with its foreign keys, [users_update] with the names and the
    image the user has, [posts_update] with the title and the content of
    the post and exactly the ids of its tags, and (where tag names are
    unique) [tags_edit] with the name of the tag and exactly the ids of
    its posts, answer with the redirect and leave the store as it was. *)
Theorem saving_unchanged_form_changes_nothing int s :
  consistent s →
  (∀ user_id req user,
     users s !! user_id = Some user →
     form_lookup "first_name" (form req) = Some (User.first_name user) →
     form_lookup "last_name" (form req) = Some (User.last_name user) →
     form_lookup "image_url" (form req) = Some (User.image_url user) →
     response (serve (users_update user_id) req s) = Redirect "/users"
     ∧ store (serve (users_update user_id) req s) = s)
  ∧ (∀ post_id req post ids,
       posts s !! post_id = Some post →
       form_lookup "title" (form req) = Some (Post.title post) →
       form_lookup "content" (form req) = Some (Post.content post) →
       mapM int (getlist "tags" (form req)) = Some ids →
       (∀ t, t ∈ ids ↔ t ∈ tags_of s post_id) →
       response (serve (posts_update int post_id) req s)
       = Redirect ("/users/" +:+ pretty (Post.user_id post))
       ∧ store (serve (posts_update int post_id) req s) = s)
  ∧ (∀ tag_id req tag ids,
       unique_names (tags s) →
       tags s !! tag_id = Some tag →
       form_lookup "name" (form req) = Some (Tag.name tag) →
       mapM int (getlist "posts" (form req)) = Some ids →
       (∀ p, p ∈ ids ↔ p ∈ posts_of s tag_id) →
       response (serve (tags_edit int tag_id) req s) = Redirect "/tags"
       ∧ store (serve (tags_edit int tag_id) req s) = s).
Proof.
  intros [Hposts Hrows]. split_and!.
  - intros user_id req user Huser Hfirst Hlast Himage.
    rewrite users_update_serve, Huser, Hfirst, Hlast, Himage. cbv zeta.
    change (refuses _ _) with (refuses (User.text user) (User.text user)).
    rewrite refuses_same.
    cbn [response store]. split; [done|]. destruct s. unfold set_users.
    cbn [users posts tags posts_tags users_id_seq posts_id_seq tags_id_seq] in *.
    f_equal. apply insert_id. by destruct user.
  - intros post_id req post ids Hpost Htitle Hcontent Hids Hsame.
    rewrite posts_update_serve, Hpost, Htitle, Hcontent, Hids. cbv zeta.
    change (refuses _ _) with (refuses (Post.text post) (Post.text post)).
    rewrite refuses_same.
    cbn [response store]. split; [done|].
    assert (∀ t, t ∈ ids ↔ (post_id, t) ∈ posts_tags s) as Hsame'.
    { intros t. by rewrite Hsame, elem_of_tags_of. }
    destruct s. unfold set_posts, set_posts_tags.
    cbn [users posts tags posts_tags users_id_seq posts_id_seq tags_id_seq] in *.
    f_equal; [apply insert_id; by destruct post|].
    apply set_eq. intros [p t]. rewrite elem_of_assign_tags. split.
    + intros [[_ Hin]|(-> & Hi & _)]; [done|by apply Hsame'].
    + intros Hin. destruct (decide (p = post_id)) as [->|Hne]; [|by left].
      right. split_and!; [done|by apply Hsame'|by apply (Hrows post_id t)].
  - intros tag_id req tag ids Hunique Htag Hname Hids Hsame.
    rewrite (tags_edit_run int tag_id req s tag (Tag.name tag) ids Htag Hname Hids).
    2: { apply (refuses_same (Tag.text tag)). }
    2: { intros j tj Hj Heq. by apply (Hunique j tag_id tj tag). }
    cbn [response store]. split; [done|].
    assert (∀ p, p ∈ ids ↔ (p, tag_id) ∈ posts_tags s) as Hsame'.
    { intros p. by rewrite Hsame, elem_of_posts_of. }
    destruct s. unfold set_tags, set_posts_tags.
    cbn [users posts tags posts_tags users_id_seq posts_id_seq tags_id_seq] in *.
    f_equal; [apply insert_id; by destruct tag|].
    apply set_eq. intros [p t]. rewrite elem_of_assign_posts. split.
    + intros [[_ Hin]|(-> & Hi & _)]; [done|by apply Hsame'].
    + intros Hin. destruct (decide (t = tag_id)) as [->|Hne]; [|by left].
      right. split_and!; [done|by apply Hsame'|by apply (Hrows p tag_id)].
Qed.

Lemma saving_unchanged_form_changes_nothing_witness :
  let s := store (serve (view_function decimal (POST_posts_new 1))
                    (at_noon [("title", "Notes"); ("content", "On the engine")])
                    (store (serve (view_function decimal POST_users_new)
                              (at_noon [("first_name", "Ada"); ("last_name", "Lovelace");
                                        ("image_url", "")]) create_all))) in
  response (serve (posts_update decimal 1)
              (at_noon [("title", "Notes"); ("content", "On the engine")]) s)
  = Redirect "/users/1"
  ∧ store (serve (posts_update decimal 1)
             (at_noon [("title", "Notes"); ("content", "On the engine")]) s) = s.
Proof.
  intros s.
  assert (reachable decimal s) as Hs
    by apply reachable_step, reachable_step, reachable_init.
  destruct (saving_unchanged_form_changes_nothing decimal s
              (reachable_consistent decimal s Hs)) as (_ & Hpost & _).
  apply (Hpost 1 (at_noon [("title", "Notes"); ("content", "On the engine")])
           (Post.mk "Notes" "On the engine" 1200 1) []); try reflexivity.
  intros t. split; [by intros ?%elem_of_nil|].
  assert (tags_of s 1 = ∅) as -> by reflexivity. by intros ?%elem_of_empty.
Defined.

Example users_index_on_demo :
  (users_index (λ x y, bytes_le x y = true) (at_noon [])
     {| database := demo; pending := demo; dirty := ∅; flashes := [] |}).2
  = Return ("users/index.html",
            [(1, User.mk "Ada" "Lovelace" "ada.png");
             (2, User.mk "Alan" "Turing" "alan.png")]).
Proof. reflexivity. Qed.

(** ** Text the driver does not take *)



